(** * GraphcoolDefinitionClass: a shallow embedding

    Source: cli/packages/graphcool-cli-engine/src/GraphcoolDefinition/
    GraphcoolDefinition.ts.

    Conventions of the embedding.
    - A JavaScript string is the list of its UTF-16 code units; [str]
      turns an ASCII literal into such a list.
    - A plain object used as a dictionary ([stages]) is a finite map of
      its own properties; a property read [stages[x]] goes through
      [js_get], which also answers for the names inherited from
      [Object.prototype].  What a stage is bound to is therefore a
      [PropertyValue]: a string, or a value inherited from the prototype.
    - [undefined] and [null] are [None]; the truthiness tests are [truthy]
      (strings) and [truthy_value] (property values).
    - The recursion of [resolveStage] is not structural: the embedding
      takes the depth budget of the call stack as an explicit [nat];
      [None] means that the budget was exhausted, which [load] sees as a
      [RangeError].
    - Collaborators that are not part of this file (the definition reader,
      the file system, the YAML parser, the environment, [jwt.sign] and
      the console) appear as explicit inputs or as symbolic results. *)

From Stdlib Require Import String Ascii ZArith.
From stdpp Require Import gmap list relations.

Local Open Scope Z_scope.
Local Open Scope list_scope.

(** ** JavaScript strings *)

Abbreviation jsstring := (list N).

Definition str (s : string) : jsstring :=
  (λ a : ascii, N_of_ascii a) <$> list_ascii_of_string s.

(** Truthiness of a [string | undefined | null]: [undefined], [null] and
    the empty string are falsy. *)
Definition truthy (v : option jsstring) : bool :=
  match v with
  | Some (_ :: _) => true
  | _ => false
  end.

(** ** Property reads on a plain object *)

(** What a read of [stages[x]] can give: a string, which is what the
    definition file binds a stage to, or the value that [Object.prototype]
    holds under one of its names (a native function, or the prototype
    itself for [__proto__]). *)
Inductive PropertyValue :=
  | VString (s : jsstring)
  | VInherited (name : jsstring).

Global Instance PropertyValue_eq_dec : EqDecision PropertyValue.
Proof. solve_decision. Defined.

(** The string value written as an ASCII literal. *)
Definition vstr (s : string) : PropertyValue := VString (str s).

(** The own properties of a [stages] object. *)
Abbreviation Stages := (gmap jsstring PropertyValue).

(** The names of the properties of [Object.prototype]. *)
Definition Object_prototype_names : list jsstring :=
  [ str "constructor"; str "__defineGetter__"; str "__defineSetter__";
    str "hasOwnProperty"; str "__lookupGetter__"; str "__lookupSetter__";
    str "isPrototypeOf"; str "propertyIsEnumerable"; str "toString";
    str "valueOf"; str "__proto__"; str "toLocaleString" ].

(** [o[key]] on a plain object: an own property first, then the
    prototype. *)
Definition js_get (o : Stages) (key : jsstring) : option PropertyValue :=
  match o !! key with
  | Some v => Some v
  | None =>
      if decide (key ∈ Object_prototype_names) then Some (VInherited key)
      else None
  end.

(** The property key that a value used as an index stands for: a string
    is its own key, an inherited value is turned into a string
    ([function Object() { [native code] }] for [constructor],
    [[object Object]] for [__proto__]). *)
Definition property_key (v : PropertyValue) : jsstring :=
  match v with
  | VString s => s
  | VInherited name =>
      if decide (name = str "__proto__") then str "[object Object]"
      else str "function "
           ++ (if decide (name = str "constructor") then str "Object"
               else name)
           ++ str "() { [native code] }"
  end.

(** Truthiness of a property read: [undefined] and the empty string are
    falsy; functions and objects are truthy. *)
Definition truthy_value (v : option PropertyValue) : bool :=
  match v with
  | None => false
  | Some (VString []) => false
  | Some _ => true
  end.

(** [a || b] on property reads. *)
Definition js_or (a b : option PropertyValue) : option PropertyValue :=
  if truthy_value a then a else b.

(** ** Alias resolution (lines 164-171) *)

(** [resolveStage]:
    [stages[stage] ? this.resolveStage(stages[stage], stages) : stage]. *)
Fixpoint resolveStage (depth : nat) (stage : PropertyValue) (stages : Stages)
  : option PropertyValue :=
  match depth with
  | O => None
  | S depth' =>
      match js_get stages (property_key stage) with
      | Some target =>
          if truthy_value (Some target)
          then resolveStage depth' target stages
          else Some stage
      | None => Some stage
      end
  end.

(** [resolveStageAliases]:
    [mapValues(stages, target => this.resolveStage(target, stages))].
    The callback runs on the value of every own property, and the
    result has the same own properties; there is a result only when every
    call returns. *)
Definition resolveStageAliases (depth : nat) (stages : Stages)
  : option Stages :=
  if decide (map_Forall
               (λ _ target, is_Some (resolveStage depth target stages)) stages)
  then Some (omap (λ target, resolveStage depth target stages) stages)
  else None.

(** One indirection step that the resolver follows: the read of
    [stages[x]] gives [y], and [y] is truthy. *)
Definition follows (stages : Stages) : relation PropertyValue :=
  λ x y, js_get stages (property_key x) = Some y ∧ y ≠ VString [].

(** One lookup step among the stage names: the stage [x] is bound to the
    string [y]. *)
Definition lookup_step (stages : Stages) : relation jsstring :=
  λ x y, stages !! x = Some (VString y).

(** A cycle: some key reachable from itself by repeated lookup. *)
Definition has_cycle (stages : Stages) : Prop :=
  ∃ k, tc (lookup_step stages) k k.

Definition acyclic (stages : Stages) : Prop :=
  ∀ k, ¬ tc (lookup_step stages) k k.

Definition no_empty_value (stages : Stages) : Prop :=
  map_Forall (λ _ target, target ≠ VString []) stages.

(** A string that is not the name of a property of [Object.prototype]. *)
Definition own_name (v : PropertyValue) : Prop :=
  match v with
  | VString s => s ∉ Object_prototype_names
  | VInherited _ => False
  end.

Global Instance own_name_dec v : Decision (own_name v).
Proof. destruct v; simpl; apply _. Defined.

(** Every stage is bound to such a string. *)
Definition no_inherited_value (stages : Stages) : Prop :=
  map_Forall (λ _ target, own_name target) stages.

(** A value at which the resolver stops: the read of [stages[v]] gives
    undefined or the empty string. *)
Definition terminal (stages : Stages) (v : PropertyValue) : Prop :=
  ∀ y, ¬ follows stages v y.

(** ** Data of the class *)

Inductive Error :=
  | NoDefinitionFile
      (* Error(`Please create a graphcool.yml`) *)
  | ReadDefinitionError (message : jsstring)
      (* whatever readDefinition rejects with *)
  | RangeError
      (* Maximum call stack size exceeded *)
  | ClusterNotFound (referredCluster : PropertyValue) (stageName : jsstring)
      (* Error(`Could not find cluster '..', which is used in stage '..'.`) *)
  | TypesFileNotFound (typesPath : jsstring)
      (* Error(`The types definition file ".." could not be found.`) *)
  | MissingSecret
      (* Error('Please either provide a secret in your graphcool.yml or
         disableAuth: true') *)
  | StageNotFound (name : jsstring)
      (* new StageNotFound(name) *)
  | TypeError.
      (* property read on undefined or null *)

(** How a call completes: normally with a value, or abruptly. *)
Inductive completion (A : Type) :=
  | Return (a : A)
  | Throw (e : Error).
Arguments Return {A} a.
Arguments Throw {A} e.

(** [datamodel: string | string[]]. *)
Inductive Datamodel :=
  | DatamodelPath (p : jsstring)
  | DatamodelPaths (ps : list jsstring).

(** The fields of [GraphcoolDefinition] that the class reads. *)
Record GraphcoolDefinition := {
  stages : Stages;
  datamodel : Datamodel;
  secret : option jsstring;
  disableAuth : option bool
}.

Definition set_stages (d : GraphcoolDefinition) (s : Stages)
  : GraphcoolDefinition :=
  {| stages := s; datamodel := datamodel d;
     secret := secret d; disableAuth := disableAuth d |}.

Record Config := {
  definitionPath : option jsstring;
  definitionDir : jsstring
}.

Record Cluster := { name : jsstring }.

Record Environment := { clusters : list Cluster }.

(** The mutable fields of an instance ([out] is only handed on to
    [readDefinition]). *)
Record GraphcoolDefinitionClass := {
  config : Config;
  definition : option GraphcoolDefinition;
  typesString : option jsstring;
  rawStages : option Stages;
  secrets : option (list jsstring);
  definitionString : option jsstring
}.

(** [constructor(out, config)]: only [secrets] is initialised, to null. *)
Definition constructor (cfg : Config) : GraphcoolDefinitionClass :=
  {| config := cfg; definition := None; typesString := None;
     rawStages := None; secrets := None; definitionString := None |}.

(** The collaborators [load] calls: [readDefinition(path, out, args)] as
    the function of the path it is for fixed [out] and [args], and the
    [fs] and [path] primitives. *)
Record Host := {
  readDefinition : jsstring → Error + GraphcoolDefinition;
  readFileSync : jsstring → jsstring;
  existsSync : jsstring → bool;
  path_join : jsstring → jsstring → jsstring
}.

Definition newline : jsstring := [10%N].
Definition comma : N := 44%N.

(** ** Secret parsing (lines 49-51) *)

(** The class [\s] of a JavaScript regular expression, by code unit. *)
Definition is_whitespace (c : N) : bool :=
  ((9 <=? c) && (c <=? 13) || (c =? 32) || (c =? 160) || (c =? 5760)
   || (8192 <=? c) && (c <=? 8202) || (c =? 8232) || (c =? 8233)
   || (c =? 8239) || (c =? 8287) || (c =? 12288) || (c =? 65279))%N.

(** [s.replace(/\s/g, '')]. *)
Definition remove_whitespace (s : jsstring) : jsstring :=
  List.filter (λ c, negb (is_whitespace c)) s.

(** [s.split(',')]. *)
Fixpoint split_comma (s : jsstring) : list jsstring :=
  match s with
  | [] => [[]]
  | c :: s' =>
      if (c =? comma)%N then [] :: split_comma s'
      else match split_comma s' with
           | piece :: pieces => (c :: piece) :: pieces
           | [] => [[c]]
           end
  end.

(** [this.definition.secret
       ? this.definition.secret.replace(/\s/g, '').split(',') : null]. *)
Definition parse_secret (raw : option jsstring) : option (list jsstring) :=
  match raw with
  | Some s =>
      if truthy (Some s) then Some (split_comma (remove_whitespace s))
      else None
  | None => None
  end.

(** ** load (lines 33-60) and its private helpers *)

(** [getTypesString] (lines 126-149): the loop over [typesPaths], with the
    accumulator [allTypes]; the first missing file throws. *)
Fixpoint read_types (host : Host) (dir : jsstring) (typesPaths : list jsstring)
    (allTypes : jsstring) : completion jsstring :=
  match typesPaths with
  | [] => Return allTypes
  | unresolvedTypesPath :: rest =>
      let typesPath := path_join host dir unresolvedTypesPath in
      if existsSync host typesPath
      then read_types host dir rest
             (allTypes ++ readFileSync host typesPath ++ newline)
      else Throw (TypesFileNotFound typesPath)
  end.

Definition getTypesString (host : Host) (cfg : Config)
    (d : GraphcoolDefinition) : completion jsstring :=
  let typesPaths :=
    match datamodel d with
    | DatamodelPaths ps => ps
    | DatamodelPath p => [p]
    end in
  read_types host (definitionDir cfg) typesPaths [].

(** [env.clusters.find(c => c.name === referredCluster)], as a test. *)
Definition cluster_known (env : Environment)
    (referredCluster : PropertyValue) : bool :=
  existsb (λ c, bool_decide (VString (name c) = referredCluster))
    (clusters env).

(** [ensureOfClusters] (lines 151-162): the first stage, in the order the
    keys are enumerated, whose cluster is unknown throws.  The enumeration
    order of the finite map stands for the order of [Object.keys]; which
    of several offending stages is reported depends on it, and no
    statement below does. *)
Fixpoint check_clusters (env : Environment)
    (entries : list (jsstring * PropertyValue)) : completion unit :=
  match entries with
  | [] => Return tt
  | (stageName, referredCluster) :: rest =>
      if cluster_known env referredCluster
      then check_clusters env rest
      else Throw (ClusterNotFound referredCluster stageName)
  end.

Definition ensureOfClusters (d : GraphcoolDefinition) (env : Environment)
  : completion unit :=
  check_clusters env (map_to_list (stages d)).

(** Field assignments on [this]. *)
Definition set_definition (this : GraphcoolDefinitionClass)
    (d : GraphcoolDefinition) : GraphcoolDefinitionClass :=
  {| config := config this; definition := Some d;
     typesString := typesString this; rawStages := rawStages this;
     secrets := secrets this; definitionString := definitionString this |}.

Definition set_definitionString (this : GraphcoolDefinitionClass)
    (s : jsstring) : GraphcoolDefinitionClass :=
  {| config := config this; definition := definition this;
     typesString := typesString this; rawStages := rawStages this;
     secrets := secrets this; definitionString := Some s |}.

Definition set_rawStages (this : GraphcoolDefinitionClass)
    (s : Stages) : GraphcoolDefinitionClass :=
  {| config := config this; definition := definition this;
     typesString := typesString this; rawStages := Some s;
     secrets := secrets this; definitionString := definitionString this |}.

Definition set_typesString (this : GraphcoolDefinitionClass)
    (s : jsstring) : GraphcoolDefinitionClass :=
  {| config := config this; definition := definition this;
     typesString := Some s; rawStages := rawStages this;
     secrets := secrets this; definitionString := definitionString this |}.

Definition set_secrets (this : GraphcoolDefinitionClass)
    (s : option (list jsstring)) : GraphcoolDefinitionClass :=
  {| config := config this; definition := definition this;
     typesString := typesString this; rawStages := rawStages this;
     secrets := s; definitionString := definitionString this |}.

(** [disableAuth] as a condition. *)
Definition auth_disabled (d : GraphcoolDefinition) : bool :=
  match disableAuth d with
  | Some true => true
  | _ => false
  end.

(** [load(env, args, envPath)], run with the call-stack budget [depth].
    The result pairs the instance as the call leaves it with the way the
    call completes.  When the recursion of [resolveStage] uses up the
    budget, the call is rejected with a [RangeError] and the fields
    assigned so far stay assigned.  [dotenv.config] touches no field of
    the instance and is left out. *)
Definition load (depth : nat) (host : Host) (this : GraphcoolDefinitionClass)
    (env : Environment)
  : GraphcoolDefinitionClass * completion unit :=
  match definitionPath (config this) with
  | Some path =>
      if truthy (Some path) then
        match readDefinition host path with
        | inl e => (this, Throw e)
        | inr d =>
            let this := set_definition this d in
            let this := set_definitionString this (readFileSync host path) in
            let this := set_rawStages this (stages d) in
            match resolveStageAliases depth (stages d) with
            | None => (this, Throw RangeError)
            | Some resolved =>
                let d := set_stages d resolved in
                let this := set_definition this d in
                match ensureOfClusters d env with
                | Throw e => (this, Throw e)
                | Return _ =>
                    match getTypesString host (config this) d with
                    | Throw e => (this, Throw e)
                    | Return types =>
                        let this := set_typesString this types in
                        let this := set_secrets this (parse_secret (secret d)) in
                        match secrets this with
                        | None =>
                            if negb (auth_disabled d)
                            then (this, Throw MissingSecret)
                            else (this, Return tt)
                        | Some _ => (this, Return tt)
                        end
                    end
                end
            end
        end
      else (this, Throw NoDefinitionFile)
  | None => (this, Throw NoDefinitionFile)
  end.

(** ** getToken (lines 62-77) *)

(** The values handed to [console.log] and [jwt.sign]. *)
#[warnings="-register-all"] Inductive JSValue :=
  | JUndefined
  | JString (s : jsstring)
  | JArray (items : list JSValue)
  | JObject (fields : list (jsstring * JSValue)).

(** A token is kept symbolic: it is the call of [jwt.sign] that made it. *)
Inductive Token :=
  | jwt_sign (payload : JSValue) (secretOrPrivateKey : JSValue)
             (expiresIn : jsstring).

(** [secrets[0]]. *)
Definition first_secret (l : list jsstring) : JSValue :=
  match l with
  | s :: _ => JString s
  | [] => JUndefined
  end.

(** The object literal [data] of [getToken]. *)
Definition token_data (serviceName stageName : jsstring) : JSValue :=
  JObject
    [(str "data",
      JObject [(str "service", JString (serviceName ++ str "@" ++ stageName));
               (str "roles", JArray [JString (str "admin")])])].

(** [getToken(serviceName, stageName)]: the lines written to the console,
    each the list of the arguments of one [console.log], and the value
    returned ([None] for [undefined]).  An array is truthy even when it is
    empty. *)
Definition getToken (this : GraphcoolDefinitionClass)
    (serviceName stageName : jsstring)
  : list (list JSValue) * option Token :=
  match secrets this with
  | Some l =>
      let data := token_data serviceName stageName in
      ([[data; first_secret l]],
       Some (jwt_sign data (first_secret l) (str "1h")))
  | None => ([], None)
  end.

(** ** getStage (lines 79-92) and the getter default (lines 173-183) *)

Definition getStage (this : GraphcoolDefinitionClass) (name : jsstring)
    (throws : bool) : completion (option PropertyValue) :=
  let stage :=
    match definition this with
    | Some d => js_or (js_get (stages d) name) (js_get (stages d) (str "default"))
    | None => None
    end in
  if negb throws then Return stage
  else if negb (truthy_value stage) then Throw (StageNotFound name)
  else Return stage.

(** [get default()]; [None] is [null]. *)
Definition get_default (this : GraphcoolDefinitionClass)
  : option PropertyValue :=
  match definition this with
  | Some d =>
      if truthy_value (js_get (stages d) (str "default"))
      then js_get (stages d) (str "default")
      else None
  | None => None
  end.

(** ** insertToDefinition (lines 102-120) *)

(** [s.slice(start, end_)] and [s.slice(start)]: a negative index counts
    from the end, and both are clamped to the string. *)
Definition slice_index (len i : Z) : Z :=
  if i <? 0 then Z.max (len + i) 0 else Z.min i len.

Definition slice (s : jsstring) (start end_ : Z) : jsstring :=
  let len := Z.of_nat (length s) in
  let from := slice_index len start in
  let to := slice_index len end_ in
  take (Z.to_nat (to - from)) (drop (Z.to_nat from) s).

Definition slice_from (s : jsstring) (start : Z) : jsstring :=
  slice s start (Z.of_nat (length s)).

(** What the class reads of the tree of [yaml-ast-parser]: of a node its
    two offsets, of a mapping the text of its key ([m.key.value]), its end
    offset and its value node, which is null for an entry without value;
    of the document its [mappings], undefined unless the document is a
    map.  [safeLoad] gives undefined for a text without document. *)
Record YAMLNode := {
  startPosition : Z;
  endPosition : Z
}.

Record YAMLMapping := {
  key_value : jsstring;
  mapping_endPosition : Z;
  value : option YAMLNode
}.

Record YAMLDocument := { mappings : option (list YAMLMapping) }.

Definition insertToDefinition (safeLoad : jsstring → option YAMLDocument)
    (file key insertion : jsstring) : completion jsstring :=
  match safeLoad file with
  | None => Throw TypeError
  | Some obj =>
      match mappings obj with
      | None => Throw TypeError
      | Some ms =>
          match List.find (λ m, bool_decide (key_value m = key)) ms with
          | Some mapping =>
              let end_ := mapping_endPosition mapping in
              let newFile :=
                slice file 0 end_ ++ insertion ++ slice_from file end_ in
              match value mapping with
              | None => Throw TypeError
              | Some v =>
                  let valueStart := startPosition v in
                  let valueEnd := endPosition v in
                  if valueEnd - valueStart <? 4
                  then Return (slice newFile 0 valueStart
                               ++ slice_from newFile valueEnd)
                  else Return newFile
              end
          | None => Return (file ++ newline ++ key ++ str ": " ++ insertion)
          end
      end
  end.

(** [setStage(name, clusterName)] (lines 94-100), on an instance whose
    text was loaded. *)
Definition setStage (safeLoad : jsstring → option YAMLDocument)
    (this : GraphcoolDefinitionClass) (stageName clusterName : jsstring)
  : option (completion GraphcoolDefinitionClass) :=
  match definitionString this with
  | Some file =>
      Some match insertToDefinition safeLoad file (str "stages")
                   (newline ++ str "  " ++ stageName ++ str ": " ++ clusterName)
           with
           | Return file' => Return (set_definitionString this file')
           | Throw e => Throw e
           end
  | None => None
  end.

(** ** Sample inputs *)

(** [{a: b, b: a}]. *)
Definition stages_cyclic : Stages :=
  {[ str "a" := vstr "b"; str "b" := vstr "a" ]}.

(** [{a: b, b: ""}]. *)
Definition stages_empty_target : Stages :=
  {[ str "a" := vstr "b"; str "b" := VString [] ]}.

(** [{dev: staging, staging: local}]. *)
Definition stages_chain : Stages :=
  {[ str "dev" := vstr "staging"; str "staging" := vstr "local" ]}.

(** The test that a measure decreases along one lookup. *)
Definition rank_decreases (rank : jsstring → nat) (x : jsstring)
    (v : PropertyValue) : bool :=
  match v with
  | VString y => bool_decide (rank y < rank x)%nat
  | VInherited _ => true
  end.

(** Measures that decrease along the lookups of the two maps above. *)
Definition rank_empty_target (x : jsstring) : nat :=
  if decide (x = str "a") then 2 else if decide (x = str "b") then 1 else 0.

Definition rank_chain (x : jsstring) : nat :=
  if decide (x = str "dev") then 2
  else if decide (x = str "staging") then 1 else 0.

(** A configuration with a definition path, and a host whose reader
    gives the definition [d] and whose files all exist. *)
Definition sample_config : Config :=
  {| definitionPath := Some (str "graphcool.yml"); definitionDir := str "." |}.

Definition sample_definition (s : Stages) (sec : option jsstring)
    (noauth : option bool) : GraphcoolDefinition :=
  {| stages := s; datamodel := DatamodelPath (str "types.graphql");
     secret := sec; disableAuth := noauth |}.

Definition sample_host (d : GraphcoolDefinition) : Host :=
  {| readDefinition := λ _, inr d;
     readFileSync := λ _, str "type User { id: ID! }";
     existsSync := λ _, true;
     path_join := λ dir p, dir ++ str "/" ++ p |}.

Definition env_none : Environment := {| clusters := [] |}.

Definition env_local : Environment :=
  {| clusters := [ {| name := str "local" |} ] |}.

(** An environment with a cluster whose name is the empty string. *)
Definition env_unnamed : Environment :=
  {| clusters := [ {| name := [] |}; {| name := str "local" |} ] |}.

(** [{default: local}]. *)
Definition stages_default : Stages := {[ str "default" := vstr "local" ]}.

(** [{dev: "", default: local}]. *)
Definition stages_unnamed : Stages :=
  {[ str "dev" := VString []; str "default" := vstr "local" ]}.

Definition sample_instance : GraphcoolDefinitionClass :=
  constructor sample_config.

(** [stages: {default: local}], neither [secret] nor [disableAuth]. *)
Definition definition_default : GraphcoolDefinition :=
  sample_definition stages_default None None.

(** The same with [secret: " "]. *)
Definition definition_blank_secret : GraphcoolDefinition :=
  sample_definition stages_default (Some (str " ")) None.

(** The same with [disableAuth: true] and no secret. *)
Definition definition_noauth : GraphcoolDefinition :=
  sample_definition stages_default None (Some true).

(** [stages: {dev: "", default: local}] with [disableAuth: true]. *)
Definition definition_unnamed : GraphcoolDefinition :=
  sample_definition stages_unnamed None (Some true).

(** An instance whose secrets are [["s1"]]. *)
Definition instance_with_secret : GraphcoolDefinitionClass :=
  set_secrets sample_instance (Some [str "s1"]).

(** The text [stages: {}] and its tree: one entry, key at 0-6, value at
    8-10. *)
Definition text_empty_stages : jsstring := str "stages: {}".

Definition mapping_empty_stages : YAMLMapping :=
  {| key_value := str "stages"; mapping_endPosition := 10;
     value := Some {| startPosition := 8; endPosition := 10 |} |}.

Definition yaml_empty_stages (file : jsstring) : option YAMLDocument :=
  Some {| mappings := Some [mapping_empty_stages] |}.

(** The text [stages:] and its tree: one entry, without value node. *)
Definition text_stages_no_value : jsstring := str "stages:".

Definition mapping_stages_no_value : YAMLMapping :=
  {| key_value := str "stages"; mapping_endPosition := 7; value := None |}.

Definition yaml_stages_no_value (file : jsstring) : option YAMLDocument :=
  Some {| mappings := Some [mapping_stages_no_value] |}.



(** The line that [setStage("dev", "local")] inserts. *)
Definition insertion_dev : jsstring := newline ++ str "  dev: local".

(** [{staging: clusterA, default: clusterA}], loaded. *)
Definition instance_staging : GraphcoolDefinitionClass :=
  set_definition sample_instance
    (sample_definition
       {[ str "staging" := vstr "clusterA"; str "default" := vstr "clusterA" ]}
       None (Some true)).

(** [{dev: local}], loaded: no stage [default]. *)
Definition instance_dev : GraphcoolDefinitionClass :=
  set_definition sample_instance
    (sample_definition {[ str "dev" := vstr "local" ]} None (Some true)).

(** [{dev: constructor}], and a definition with these stages and
    [disableAuth: true]. *)
Definition stages_constructor : Stages :=
  {[ str "dev" := vstr "constructor" ]}.

(** [{a: constructor, "function Object() { [native code] }": a}]. *)
Definition stages_native_cycle : Stages :=
  {[ str "a" := vstr "constructor";
     str "function Object() { [native code] }" := vstr "a" ]}.

(** [stages: {a: b, b: a}] with [disableAuth: true]. *)
Definition definition_cyclic : GraphcoolDefinition :=
  sample_definition stages_cyclic None (Some true).

(** The instance that a call of [load] leaves behind. *)
Definition instance_after (r : GraphcoolDefinitionClass * completion unit)
  : GraphcoolDefinitionClass :=
  fst r.

(** The steps of [load] before the secret is read all pass, and leave
    the definition [d] (stages resolved) assigned. *)
Definition reaches_secret_step (depth : nat) (host : Host)
    (this : GraphcoolDefinitionClass) (env : Environment)
    (d : GraphcoolDefinition) : Prop :=
  ∃ path d0 resolved types,
    definitionPath (config this) = Some path ∧
    truthy (Some path) = true ∧
    readDefinition host path = inr d0 ∧
    resolveStageAliases depth (stages d0) = Some resolved ∧
    d = set_stages d0 resolved ∧
    ensureOfClusters d env = Return tt ∧
    getTypesString host (config this) d = Return types.

(** ** Further notions and sample inputs *)

(** The list that [getTypesString] iterates over:
    [Array.isArray(datamodel) ? datamodel : [datamodel]]. *)
Definition datamodel_paths (dm : Datamodel) : list jsstring :=
  match dm with
  | DatamodelPaths ps => ps
  | DatamodelPath p => [p]
  end.

(** [pieces.join(',')], the inverse of [split(',')]. *)
Fixpoint join_comma (pieces : list jsstring) : jsstring :=
  match pieces with
  | [] => []
  | [piece] => piece
  | piece :: rest => piece ++ comma :: join_comma rest
  end.

(** The number of commas of a string. *)
Definition count_commas (s : jsstring) : nat :=
  length (List.filter (λ c, (c =? comma)%N) s).

(** The code unit of [@]. *)
Definition at_sign : N := 64%N.

(** [stages_chain], resolved. *)
Definition stages_chain_resolved : Stages :=
  {[ str "dev" := vstr "local"; str "staging" := vstr "local" ]}.

(** A host like [sample_host] on which no file exists. *)
Definition host_no_files (d : GraphcoolDefinition) : Host :=
  {| readDefinition := λ _, inr d;
     readFileSync := λ _, [];
     existsSync := λ _, false;
     path_join := λ dir p, dir ++ str "/" ++ p |}.

(** The text [stages: {a: b}] and its tree: one entry, key at 0-6, value
    at 8-14. *)
Definition text_flow_stages : jsstring := str "stages: {a: b}".

Definition mapping_flow_stages : YAMLMapping :=
  {| key_value := str "stages"; mapping_endPosition := 14;
     value := Some {| startPosition := 8; endPosition := 14 |} |}.

Definition yaml_flow_stages (file : jsstring) : option YAMLDocument :=
  Some {| mappings := Some [mapping_flow_stages] |}.

(** [instance_dev] with the text [stages: {a: b}] as its definition
    string. *)
Definition instance_text : GraphcoolDefinitionClass :=
  set_definitionString instance_dev text_flow_stages.

(** The text [secret: s1] and its tree: one entry, key at 0-6, value at
    8-10; an instance with that text. *)
Definition text_secret_only : jsstring := str "secret: s1".

Definition yaml_secret_only (file : jsstring) : option YAMLDocument :=
  Some {| mappings :=
            Some [ {| key_value := str "secret"; mapping_endPosition := 10;
                      value := Some {| startPosition := 8;
                                       endPosition := 10 |} |} ] |}.

Definition instance_secret_text : GraphcoolDefinitionClass :=
  set_definitionString instance_dev text_secret_only.

(** [{prod: dev, dev: local}]: [prod] is an alias of [dev]. *)
Definition stages_alias : Stages :=
  {[ str "prod" := vstr "dev"; str "dev" := vstr "local" ]}.

Definition stages_alias_resolved : Stages :=
  {[ str "prod" := vstr "local"; str "dev" := vstr "local" ]}.

(** The instance that a call of [setStage] returns. *)
Definition instance_patched (this : GraphcoolDefinitionClass)
    (r : option (completion GraphcoolDefinitionClass))
  : GraphcoolDefinitionClass :=
  match r with
  | Some (Return this') => this'
  | _ => this
  end.

(** * Alias resolution *)

(** The string that an inherited value turns into is the name of no
    property of [Object.prototype]. *)
Lemma property_key_inherited name :
  property_key (VInherited name) ∉ Object_prototype_names.
Proof.
  assert (Forall (λ s : jsstring, head s ≠ Some 102%N ∧ head s ≠ Some 91%N)
            Object_prototype_names) as Hheads
    by (refine (bool_decide_unpack _ _); vm_compute; exact I).
  intros Hin. rewrite Forall_forall in Hheads.
  destruct (Hheads _ Hin) as [Hf Hbracket].
  simpl in Hf, Hbracket. destruct (decide (name = str "__proto__")).
  - by apply Hbracket.
  - by apply Hf.
Qed.

Section AliasResolver.
Variable m : Stages.

Lemma js_get_own key v : m !! key = Some v → js_get m key = Some v.
Proof. intros Hkey. unfold js_get. by rewrite Hkey. Qed.

Lemma js_get_Some key v :
  js_get m key = Some v →
  m !! key = Some v ∨
  (m !! key = None ∧ key ∈ Object_prototype_names ∧ v = VInherited key).
Proof.
  unfold js_get. destruct (m !! key) as [w|]; [intros [= ->]; by left|].
  case_decide; [intros [= <-]; by right|done].
Qed.

Lemma js_get_not_inherited key :
  key ∉ Object_prototype_names → js_get m key = m !! key.
Proof.
  intros Hkey. unfold js_get. destruct (m !! key); [done|]. by case_decide.
Qed.

Lemma truthy_value_ne v : truthy_value (Some v) = true ↔ v ≠ VString [].
Proof. destruct v as [[|c s]|name]; simpl; split; done. Qed.

Lemma resolveStage_S depth x :
  resolveStage (S depth) x m =
  match js_get m (property_key x) with
  | Some target =>
      if truthy_value (Some target) then resolveStage depth target m
      else Some x
  | None => Some x
  end.
Proof. reflexivity. Qed.

Lemma resolveStage_stop depth v :
  terminal m v → resolveStage (S depth) v m = Some v.
Proof.
  intros Hv. rewrite resolveStage_S.
  destruct (js_get m (property_key v)) as [target|] eqn:E; [|done].
  destruct (truthy_value (Some target)) eqn:Ht; [|done].
  exfalso. apply (Hv target). split; [done|]. by apply truthy_value_ne.
Qed.

Lemma resolveStage_follow depth x y :
  follows m x y → resolveStage (S depth) x m = resolveStage depth y m.
Proof.
  intros [E Hy]. rewrite resolveStage_S, E.
  by rewrite (proj2 (truthy_value_ne y) Hy).
Qed.

Lemma follows_or_terminal x : (∃ y, follows m x y) ∨ terminal m x.
Proof.
  destruct (js_get m (property_key x)) as [y|] eqn:E.
  - destruct (decide (y = VString [])) as [->|Hy].
    + right. intros y [E' Hy]. congruence.
    + left. by exists y.
  - right. intros y [E' Hy]. congruence.
Qed.

(** The step taken depends on the property key only. *)
Lemma follows_key x x' y z :
  property_key x = property_key x' → follows m x y → follows m x' z → y = z.
Proof. intros Hkey [E1 _] [E2 _]. congruence. Qed.

Lemma follows_det x y z : follows m x y → follows m x z → y = z.
Proof. by apply follows_key. Qed.

(** What a returned value is: the end of the chain of indirections. *)
Lemma resolveStage_sound depth x v :
  resolveStage depth x m = Some v → rtc (follows m) x v ∧ terminal m v.
Proof.
  revert x. induction depth as [|depth IH]; intros x; [done|].
  destruct (follows_or_terminal x) as [[y Hy]|Hx].
  - rewrite (resolveStage_follow _ _ _ Hy). intros [Hr Ht]%IH.
    split; [by eapply rtc_l|done].
  - rewrite resolveStage_stop by done. intros [= <-]. by split.
Qed.

Lemma resolveStage_mono depth depth' x v :
  resolveStage depth x m = Some v → (depth ≤ depth')%nat →
  resolveStage depth' x m = Some v.
Proof.
  revert depth' x. induction depth as [|depth IH]; intros depth' x; [done|].
  intros Hres Hle. destruct depth' as [|depth']; [lia|].
  destruct (follows_or_terminal x) as [[y Hy]|Hx].
  - rewrite (resolveStage_follow _ _ _ Hy) in Hres.
    rewrite (resolveStage_follow _ _ _ Hy). apply IH; [done|lia].
  - rewrite resolveStage_stop in Hres by done.
    by rewrite resolveStage_stop.
Qed.

(** Every element of a chain that returns to its start has a successor,
    so the resolver never stops on it. *)
Lemma cycle_successor k x :
  tc (follows m) k k → rtc (follows m) k x → tc (follows m) x x.
Proof.
  intros Hk Hx. induction Hx as [|k y x Hky Hyx IH]; [done|].
  apply IH. inversion Hk as [? ? Hkk|? y' ? Hky' Hy'k]; subst.
  - by rewrite (follows_det _ _ _ Hky Hkk).
  - rewrite (follows_det _ _ _ Hky Hky'). by eapply tc_r.
Qed.

Lemma resolveStage_cycle depth k :
  tc (follows m) k k → resolveStage depth k m = None.
Proof.
  intros Hk. destruct (resolveStage depth k m) as [v|] eqn:E; [|done].
  apply resolveStage_sound in E as [Hkv Hv].
  pose proof (cycle_successor _ _ Hk Hkv) as Hvv.
  inversion Hvv; subst; exfalso; by eapply Hv.
Qed.

(** On every cycle lies a value that some stage is bound to. *)
Lemma cycle_own_value k :
  tc (follows m) k k → ∃ stage target, m !! stage = Some target ∧
                                       tc (follows m) target target.
Proof.
  intros Hk.
  assert (∃ y, follows m k y) as [y Hky] by (inversion Hk; subst; eauto).
  assert (tc (follows m) y y) as Hy
    by (apply (cycle_successor k); [done|by apply rtc_once]).
  destruct Hky as [[Hown|(_ & Hname & ->)]%js_get_Some _]; [by eauto|].
  assert (∃ z, follows m (VInherited (property_key k)) z) as [z Hyz]
    by (inversion Hy; subst; eauto).
  assert (tc (follows m) z z) as Hz
    by (apply (cycle_successor (VInherited (property_key k)));
        [done|by apply rtc_once]).
  destruct Hyz as [[Hown|(_ & Hname' & _)]%js_get_Some _]; [by eauto|].
  by apply property_key_inherited in Hname'.
Qed.

(** Distinct property keys among [K] are no more than the size of [K]. *)
Lemma keys_bound (K : gset jsstring) (seen : list PropertyValue) :
  NoDup (property_key <$> seen) →
  (∀ y, y ∈ seen → property_key y ∈ K) →
  (length seen ≤ size K)%nat.
Proof.
  intros Hnd Hkeys. rewrite <-(length_fmap property_key).
  unfold size, set_size. simpl.
  apply submseteq_length, NoDup_submseteq; [done|].
  intros key (y & -> & Hy)%list_elem_of_fmap.
  apply elem_of_elements. by apply Hkeys.
Qed.

(** Among values that satisfy [P], which steps keep and on which there is
    no cycle, with the keys of all steps in [K]: a budget above the number
    of keys not yet seen is enough. *)
Lemma resolveStage_bounded (P : PropertyValue → Prop) (K : gset jsstring) n :
  (∀ x y, P x → follows m x y → P y ∧ property_key x ∈ K) →
  (∀ x, P x → ¬ tc (follows m) x x) →
  ∀ (seen : list PropertyValue) x,
    P x →
    NoDup (property_key <$> seen) →
    (∀ y, y ∈ seen → property_key y ∈ K ∧ tc (follows m) y x) →
    (size K ≤ n + length seen)%nat →
    is_Some (resolveStage (S n) x m).
Proof.
  intros Hstep Hacyc.
  induction n as [|n IH]; intros seen x Hx Hnd Hseen Hsize.
  all: destruct (follows_or_terminal x) as [[t Hxt]|Hterm];
    [|rewrite resolveStage_stop; by eauto].
  all: destruct (Hstep x t Hx Hxt) as [Ht Hkey].
  all: assert (NoDup (property_key <$> x :: seen)) as Hnd'.
  1,3: (simpl; constructor; [|done];
        intros (y & Heq & Hy)%list_elem_of_fmap;
        destruct (Hseen y Hy) as [_ Hyx];
        apply (Hacyc t Ht);
        apply tc_rtc_l with x; [|by apply tc_once];
        inversion Hyx as [? ? Hy1|? y1 ? Hy1 Hrest]; subst;
        [ by rewrite <-(follows_key _ _ _ _ Heq Hxt Hy1)
        | rewrite (follows_key _ _ _ _ Heq Hxt Hy1); by apply tc_rtc ]).
  all: assert (∀ z, z ∈ x :: seen →
                    property_key z ∈ K ∧ tc (follows m) z t) as Hseen'
    by (intros z [->|Hz]%elem_of_cons;
        [split; [done|by apply tc_once]
        |destruct (Hseen z Hz); split; [done|by eapply tc_r]]).
  all: assert (length (x :: seen) ≤ size K)%nat as Hlen
    by (apply keys_bound; [done|]; intros z Hz; by apply Hseen').
  - simpl in Hlen. lia.
  - rewrite (resolveStage_follow _ _ _ Hxt).
    apply (IH (x :: seen)); [done|done|done|simpl; lia].
Qed.

Lemma resolveStageAliases_Some depth m' :
  resolveStageAliases depth m = Some m' ↔
  (∀ k target, m !! k = Some target →
               is_Some (resolveStage depth target m)) ∧
  m' = omap (λ target, resolveStage depth target m) m.
Proof.
  unfold resolveStageAliases. case_decide as H.
  - split; [intros [= <-]; by split|intros [_ ->]; done].
  - split; [done|intros [H' _]; by destruct H].
Qed.

Lemma resolveStageAliases_None depth k target :
  m !! k = Some target → resolveStage depth target m = None →
  resolveStageAliases depth m = None.
Proof.
  intros Hk Hnone. unfold resolveStageAliases. case_decide as H; [|done].
  destruct (H k target Hk) as [v Hv]. congruence.
Qed.

Lemma resolveStageAliases_lookup depth m' k :
  resolveStageAliases depth m = Some m' →
  m' !! k = m !! k ≫= λ target, resolveStage depth target m.
Proof. intros [_ ->]%resolveStageAliases_Some. apply lookup_omap. Qed.

Lemma resolveStageAliases_dom depth m' :
  resolveStageAliases depth m = Some m' → dom m' = dom m.
Proof.
  intros Hres. apply set_eq. intros k. rewrite !elem_of_dom.
  rewrite (resolveStageAliases_lookup _ _ _ Hres).
  apply resolveStageAliases_Some in Hres as [Hall _].
  destruct (m !! k) as [target|] eqn:E; simpl.
  - split; [by eauto|intros _; by eapply Hall].
  - split; by intros [? ?].
Qed.

(** A cycle among the steps followed exhausts every budget. *)
Lemma resolveStageAliases_cycle depth :
  (∃ k, tc (follows m) k k) → resolveStageAliases depth m = None.
Proof.
  intros [k (stage & target & Hstage & Hcycle)%cycle_own_value].
  apply (resolveStageAliases_None depth stage target); [done|].
  by apply resolveStage_cycle.
Qed.

(** When every value that some stage is bound to resolves, there is a
    result, with the same stage names. *)
Lemma resolveStageAliases_all depth :
  (∀ k target, m !! k = Some target →
               is_Some (resolveStage depth target m)) →
  ∃ m', resolveStageAliases depth m = Some m' ∧
        dom m' = dom m ∧
        ∀ k target, m !! k = Some target →
          ∃ v, m' !! k = Some v ∧ rtc (follows m) target v ∧ terminal m v.
Proof.
  intros Hall.
  set (m' := omap (λ target, resolveStage depth target m) m).
  assert (resolveStageAliases depth m = Some m') as Hres
    by (by apply resolveStageAliases_Some).
  exists m'. split; [done|]. split; [by eapply resolveStageAliases_dom|].
  intros k target Hk. destruct (Hall k target Hk) as [v Hv].
  exists v. rewrite (resolveStageAliases_lookup _ _ _ Hres), Hk. simpl.
  split; [done|]. by eapply resolveStage_sound.
Qed.

(** The keys of all steps: the stage names and the inherited names. *)
Lemma follows_key_known x y :
  follows m x y →
  property_key x ∈ dom m ∪ list_to_set Object_prototype_names.
Proof.
  intros [[Hown|(_ & Hname & _)]%js_get_Some _].
  - apply elem_of_union_l, elem_of_dom. eauto.
  - by apply elem_of_union_r, elem_of_list_to_set.
Qed.

(** Without a cycle, a budget above the number of stage names and
    inherited names gives the map of the chain ends. *)
Lemma resolveStageAliases_acyclic depth :
  (∀ k, ¬ tc (follows m) k k) →
  (size (dom m ∪ list_to_set Object_prototype_names) < depth)%nat →
  ∃ m', resolveStageAliases depth m = Some m' ∧
        dom m' = dom m ∧
        ∀ k target, m !! k = Some target →
          ∃ v, m' !! k = Some v ∧ rtc (follows m) target v ∧ terminal m v.
Proof.
  intros Hacyc Hdepth. apply resolveStageAliases_all.
  intros k x _.
  set (K := dom m ∪ list_to_set Object_prototype_names) in *.
  assert (is_Some (resolveStage (S (size K)) x m)) as [v Hv].
  { apply (resolveStage_bounded (λ _, True) K (size K)) with (seen := []).
    - intros y z _ Hyz. split; [done|by eapply follows_key_known].
    - intros y _. apply Hacyc.
    - done.
    - constructor.
    - intros y Hy. by apply elem_of_nil in Hy.
    - simpl. lia. }
  exists v. eapply resolveStage_mono; [done|lia].
Qed.

(** With stages bound to non-empty strings that are no inherited names,
    the values met from such a string are such strings, and the steps
    followed are lookups among the stage names. *)
Lemma follows_own_name x y :
  no_empty_value m → no_inherited_value m →
  own_name x → follows m x y →
  own_name y ∧ ∃ a b, x = VString a ∧ y = VString b ∧ lookup_step m a b.
Proof.
  intros Hne Hown Hx [Hget Hy].
  destruct x as [a|name]; [|done]. simpl in Hx, Hget.
  rewrite js_get_not_inherited in Hget by done.
  pose proof (Hown a y Hget) as Hyown. simpl in Hyown.
  split; [done|]. destruct y as [b|name]; [|done]. by exists a, b.
Qed.

Lemma rtc_follows_own_name a v :
  no_empty_value m → no_inherited_value m →
  own_name (VString a) → rtc (follows m) (VString a) v →
  ∃ b, v = VString b ∧ own_name v ∧ rtc (lookup_step m) a b.
Proof.
  intros Hne Hown Ha Hchain. remember (VString a) as x eqn:Hx.
  revert a Ha Hx. induction Hchain as [x|x y z Hxy Hyz IH]; intros a Ha ->.
  - by exists a.
  - destruct (follows_own_name _ _ Hne Hown Ha Hxy)
      as (Hy & a' & b & [= <-] & -> & Hstep).
    destruct (IH b Hy eq_refl) as (c & -> & Hc & Hbc).
    exists c. split; [done|]. split; [done|]. by eapply rtc_l.
Qed.

Lemma tc_follows_own_name a :
  no_empty_value m → no_inherited_value m →
  own_name (VString a) → tc (follows m) (VString a) (VString a) →
  tc (lookup_step m) a a.
Proof.
  intros Hne Hown Ha Hcycle.
  inversion Hcycle as [? ? Hstep|? y ? Hstep Hrest]; subst.
  - destruct (follows_own_name _ _ Hne Hown Ha Hstep)
      as (_ & a' & b & [= <-] & [= <-] & Hab). by apply tc_once.
  - destruct (follows_own_name _ _ Hne Hown Ha Hstep)
      as (Hy & a' & b & [= <-] & -> & Hab).
    destruct (rtc_follows_own_name b (VString a) Hne Hown Hy (tc_rtc _ _ Hrest))
      as (c & [= <-] & _ & Hba).
    by eapply tc_rtc_r; [apply tc_once|].
Qed.

Lemma terminal_not_key a :
  no_empty_value m → own_name (VString a) → terminal m (VString a) →
  m !! a = None.
Proof.
  intros Hne Ha Hterm. destruct (m !! a) as [y|] eqn:E; [|done].
  exfalso. apply (Hterm y). split; [by apply js_get_own|]. by eapply Hne.
Qed.

(** A measure that every lookup decreases excludes cycles. *)
Lemma acyclic_by_rank (rank : jsstring → nat) :
  map_Forall (λ x v, rank_decreases rank x v = true) m → acyclic m.
Proof.
  intros Hrank.
  assert (∀ x y, lookup_step m x y → (rank y < rank x)%nat) as Hstep.
  { intros x y Hxy. specialize (Hrank x (VString y) Hxy). simpl in Hrank.
    by apply bool_decide_eq_true in Hrank. }
  assert (∀ x y, tc (lookup_step m) x y → (rank y < rank x)%nat) as Htc.
  { intros x y Hxy. induction Hxy as [x y Hxy|x y z Hxy _ IH].
    - by apply Hstep.
    - specialize (Hstep x y Hxy). lia. }
  intros k Hk. specialize (Htc k k Hk). lia.
Qed.

(** With stages bound to non-empty strings that are no inherited names
    and no cycle among the stage names, a budget above the number of
    stages is enough for every such string. *)
Lemma resolveStage_own_name depth x :
  acyclic m → no_empty_value m → no_inherited_value m →
  (size m < depth)%nat → own_name x →
  is_Some (resolveStage depth x m).
Proof.
  intros Hacyc Hne Hown Hdepth Hx.
  assert (is_Some (resolveStage (S (size (dom m))) x m)) as [v Hv].
  { apply (resolveStage_bounded own_name (dom m) (size (dom m)))
      with (seen := []).
    - intros y z Hy Hyz.
      destruct (follows_own_name _ _ Hne Hown Hy Hyz)
        as (Hz & a & b & -> & -> & Hab).
      split; [done|]. apply elem_of_dom. by eexists.
    - intros [a|name] Ha Hcycle; [|done].
      apply (Hacyc a). by apply tc_follows_own_name.
    - done.
    - constructor.
    - intros y Hy. by apply elem_of_nil in Hy.
    - simpl. lia. }
  exists v. eapply resolveStage_mono; [done|]. rewrite size_dom. lia.
Qed.

End AliasResolver.

(** ** The claims on alias resolution *)

(** C1, as the code has it: for every stage-alias mapping with a cycle
    whose targets are non-empty strings, alias resolution gives no result
    and raises no cyclic-alias error: whatever the budget of the call
    stack, the recursion of [resolveStage] uses it up. *)
Theorem resolveStageAliases_cyclic_no_result (m : Stages) :
  (∃ k, tc (follows m) k k) →
  ∀ depth, resolveStageAliases depth m = None.
Proof. intros Hcyc depth. by apply resolveStageAliases_cycle. Qed.

Lemma stages_cyclic_follows :
  follows stages_cyclic (vstr "a") (vstr "b") ∧
  follows stages_cyclic (vstr "b") (vstr "a").
Proof. split; (split; [vm_compute; reflexivity|vm_compute; discriminate]). Qed.

Lemma resolveStageAliases_cyclic_no_result_witness :
  (∃ k, tc (follows stages_cyclic) k k) ∧
  ∀ depth, resolveStageAliases depth stages_cyclic = None.
Proof.
  assert (∃ k, tc (follows stages_cyclic) k k) as H.
  { exists (vstr "a"). destruct stages_cyclic_follows as [Hab Hba].
    eapply tc_l; [exact Hab|]. by apply tc_once. }
  split; [exact H|]. exact (resolveStageAliases_cyclic_no_result _ H).
Defined.

(** C1, refuted as stated: [{a: b, b: a}] has a cycle, and the resolver
    neither returns nor fails with an error of its own, whatever the
    budget. *)
Lemma resolveStageAliases_cycle_neither_returns_nor_throws :
  has_cycle stages_cyclic ∧
  ∀ depth, resolveStageAliases depth stages_cyclic = None.
Proof.
  destruct stages_cyclic_follows as [Hab Hba]. split.
  - exists (str "a"). eapply tc_l; [|apply tc_once]; vm_compute; reflexivity.
  - intros depth. apply resolveStageAliases_cycle. exists (vstr "a").
    eapply tc_l; [exact Hab|]. by apply tc_once.
Qed.

(** C2, amended: for every acyclic stage-alias mapping whose values are
    non-empty strings, none of them the name of a property inherited from
    [Object.prototype], the resolver (given a budget above the number of
    keys) returns a mapping with the same keys in which every key is bound
    to the end of its chain of lookups, a value that is not a key of the
    input. *)
Theorem resolveStageAliases_resolves (m : Stages) (depth : nat) :
  acyclic m → no_empty_value m → no_inherited_value m →
  (size m < depth)%nat →
  ∃ m', resolveStageAliases depth m = Some m' ∧
        dom m' = dom m ∧
        ∀ k, k ∈ dom m →
          ∃ v, m' !! k = Some (VString v) ∧ tc (lookup_step m) k v ∧
               m !! v = None.
Proof.
  intros Hacyc Hne Hown Hdepth.
  destruct (resolveStageAliases_all m depth) as (m' & Hres & Hdom & Hall).
  - intros k target Hk. apply resolveStage_own_name; try done.
    by apply (Hown k).
  - exists m'. split; [done|]. split; [done|].
    intros k [target Hk]%elem_of_dom.
    destruct (Hall k target Hk) as (v & Hv & Hchain & Hend).
    pose proof (Hown k target Hk) as Htarget. simpl in Htarget.
    destruct target as [t|name]; [|done].
    destruct (rtc_follows_own_name m t v Hne Hown Htarget Hchain)
      as (b & -> & Hb & Htb).
    exists b. split; [done|]. split.
    + by eapply tc_rtc_r; [apply tc_once|].
    + by apply terminal_not_key.
Qed.

Lemma resolveStageAliases_resolves_witness :
  acyclic stages_chain ∧ no_empty_value stages_chain ∧
  no_inherited_value stages_chain ∧
  ∃ m', resolveStageAliases 3 stages_chain = Some m' ∧
        dom m' = dom stages_chain ∧
        ∀ k, k ∈ dom stages_chain →
          ∃ v, m' !! k = Some (VString v) ∧
               tc (lookup_step stages_chain) k v ∧
               stages_chain !! v = None.
Proof.
  assert (acyclic stages_chain) as Hacyc.
  { apply (acyclic_by_rank _ rank_chain).
    refine (bool_decide_unpack _ _); vm_compute; exact I. }
  assert (no_empty_value stages_chain) as Hne
    by (refine (bool_decide_unpack _ _); vm_compute; exact I).
  assert (no_inherited_value stages_chain) as Hown
    by (refine (bool_decide_unpack _ _); vm_compute; exact I).
  split; [exact Hacyc|]. split; [exact Hne|]. split; [exact Hown|].
  apply (resolveStageAliases_resolves stages_chain 3 Hacyc Hne Hown).
  vm_compute. lia.
Defined.

(** C2, refuted as stated: [{a: b, b: ""}] is acyclic, the resolver
    returns, and it binds [a] to [b], which is a key of the input;
    [{dev: constructor}] is acyclic, the resolver returns, and it binds
    [dev] to the function that [Object.prototype] holds as
    [constructor], which is not the end [constructor] of the chain. *)
Lemma resolveStageAliases_empty_target_keeps_key :
  (acyclic stages_empty_target ∧
   is_Some (resolveStageAliases 2 stages_empty_target) ∧
   ∀ depth m', resolveStageAliases depth stages_empty_target = Some m' →
     m' !! str "a" = Some (vstr "b") ∧
     is_Some (stages_empty_target !! str "b")) ∧
  (acyclic stages_constructor ∧
   stages_constructor !! str "constructor" = None ∧
   is_Some (resolveStageAliases 2 stages_constructor) ∧
   ∀ depth m', resolveStageAliases depth stages_constructor = Some m' →
     m' !! str "dev" = Some (VInherited (str "constructor"))).
Proof.
  split; (split; [|split]).
  - apply (acyclic_by_rank _ rank_empty_target).
    refine (bool_decide_unpack _ _); vm_compute; exact I.
  - vm_compute. eauto.
  - intros depth m' Hres. split; [|vm_compute; eauto].
    rewrite (resolveStageAliases_lookup _ _ _ _ Hres).
    apply resolveStageAliases_Some in Hres as [Hall _].
    change (stages_empty_target !! str "a") with (Some (vstr "b")).
    destruct (Hall (str "a") (vstr "b") eq_refl) as [v Hv].
    destruct depth as [|depth]; [done|].
    apply resolveStage_stop. intros y [E Hy]. vm_compute in E. congruence.
  - apply (acyclic_by_rank _ rank_chain).
    refine (bool_decide_unpack _ _); vm_compute; exact I.
  - vm_compute. reflexivity.
  - split; [vm_compute; eauto|].
    intros depth m' Hres.
    rewrite (resolveStageAliases_lookup _ _ _ _ Hres).
    apply resolveStageAliases_Some in Hres as [Hall _].
    change (stages_constructor !! str "dev") with (Some (vstr "constructor")).
    destruct (Hall (str "dev") (vstr "constructor") eq_refl) as [v Hv].
    destruct depth as [|depth]; [done|].
    change (resolveStage (S depth) (vstr "constructor") stages_constructor
            = Some (VInherited (str "constructor"))).
    assert (follows stages_constructor (vstr "constructor")
              (VInherited (str "constructor"))) as Hstep
      by (split; [vm_compute; reflexivity|discriminate]).
    rewrite (resolveStage_follow _ _ _ _ Hstep) in Hv |- *.
    destruct depth as [|depth]; [done|].
    apply resolveStage_stop. intros y [E Hy]. vm_compute in E. congruence.
Qed.
(** * Loading *)

Lemma reaches_secret_step_load depth host this env d :
  reaches_secret_step depth host this env d →
  ∃ this',
    secrets this' = parse_secret (secret d) ∧
    definition this' = Some d ∧
    load depth host this env =
      (this',
            match parse_secret (secret d) with
            | None => if auth_disabled d then Return tt
                      else Throw MissingSecret
            | Some _ => Return tt
            end).
Proof.
  intros (path & d0 & resolved & types & Hpath & Htruthy & Hread & Hres
          & -> & Hens & Htypes).
  unfold load. rewrite Hpath, Htruthy, Hread, Hres. simpl.
  rewrite Hens. simpl in Htypes |- *. rewrite Htypes. simpl.
  destruct (parse_secret (secret d0)) as [l|] eqn:E; simpl.
  - eexists. split; [|split]; [| |reflexivity]; done.
  - unfold auth_disabled; simpl.
    destruct (disableAuth d0) as [[|]|]; simpl;
      (eexists; split; [|split]; [| |reflexivity]; done).
Qed.

Lemma split_comma_nonempty (s : jsstring) : split_comma s ≠ [].
Proof.
  induction s as [|c s IH]; simpl; [done|].
  destruct (c =? comma)%N; [done|]. by destruct (split_comma s).
Qed.

(** C3, amended: a load that fails because no definition path is
    configured or because reading the definition fails leaves the
    instance as it was, so the accessors behave as before the load.  A
    load that fails in alias resolution (the call stack is used up)
    leaves the definition that was read assigned, with its stages
    unresolved; a load that fails at a later step (cluster validation,
    schema assembly, secret validation) leaves it assigned with its
    stages resolved.  In both cases [getStage] and [default] read the
    stages that were left assigned. *)
Theorem load_failure_state depth host this env this' e :
  load depth host this env = (this', Throw e) →
  match definitionPath (config this) with
  | Some (c :: path) =>
      match readDefinition host (c :: path) with
      | inl e0 => e = e0 ∧ this' = this
      | inr d =>
          ∃ assigned,
            match resolveStageAliases depth (stages d) with
            | None => e = RangeError ∧ assigned = stages d
            | Some resolved => assigned = resolved
            end ∧
            definition this' = Some (set_stages d assigned) ∧
            rawStages this' = Some (stages d) ∧
            (∀ stageName,
               getStage this' stageName false =
               Return (js_or (js_get assigned stageName)
                             (js_get assigned (str "default")))) ∧
            get_default this' =
              (if truthy_value (js_get assigned (str "default"))
               then js_get assigned (str "default") else None)
      end
  | _ => e = NoDefinitionFile ∧ this' = this
  end.
Proof.
  unfold load.
  destruct (definitionPath (config this)) as [[|c path]|]; simpl;
    [by intros [= <- <-]| |by intros [= <- <-]].
  destruct (readDefinition host (c :: path)) as [e0|d];
    [by intros [= <- <-]|].
  intros Hload.
  assert (∃ assigned,
            match resolveStageAliases depth (stages d) with
            | None => e = RangeError ∧ assigned = stages d
            | Some resolved => assigned = resolved
            end ∧
            definition this' = Some (set_stages d assigned) ∧
            rawStages this' = Some (stages d))
    as (assigned & Hassigned & Hdef & Hraw).
  { destruct (resolveStageAliases depth (stages d)) as [resolved|].
    - exists resolved. split; [done|].
      destruct (ensureOfClusters _ env); [|by injection Hload as <- _].
      destruct (getTypesString _ _ _); [|by injection Hload as <- _].
      simpl in Hload.
      destruct (parse_secret (secret d)); [done|].
      destruct (negb _); by injection Hload as <- _.
    - exists (stages d). injection Hload as <- <-. by destruct d. }
  exists assigned. repeat (split; [done|]).
  unfold getStage, get_default. rewrite Hdef. by simpl.
Qed.

Lemma load_failure_state_witness :
  load 2 (sample_host definition_default) sample_instance env_none =
    (instance_after
       (load 2 (sample_host definition_default) sample_instance env_none),
     Throw (ClusterNotFound (vstr "local") (str "default"))) ∧
  ∃ assigned,
    match resolveStageAliases 2 (stages definition_default) with
    | None =>
        ClusterNotFound (vstr "local") (str "default") = RangeError ∧
        assigned = stages definition_default
    | Some resolved => assigned = resolved
    end ∧
    definition
      (instance_after
         (load 2 (sample_host definition_default) sample_instance env_none))
    = Some (set_stages definition_default assigned) ∧
    rawStages
      (instance_after
         (load 2 (sample_host definition_default) sample_instance env_none))
    = Some (stages definition_default) ∧
    (∀ stageName,
       getStage
         (instance_after
            (load 2 (sample_host definition_default) sample_instance env_none))
         stageName false =
       Return (js_or (js_get assigned stageName)
                     (js_get assigned (str "default")))) ∧
    get_default
      (instance_after
         (load 2 (sample_host definition_default) sample_instance env_none)) =
      (if truthy_value (js_get assigned (str "default"))
       then js_get assigned (str "default") else None).
Proof.
  assert (load 2 (sample_host definition_default) sample_instance env_none =
          (instance_after
             (load 2 (sample_host definition_default) sample_instance
                env_none),
           Throw (ClusterNotFound (vstr "local") (str "default")))) as H
    by (vm_compute; reflexivity).
  split; [exact H|].
  exact (load_failure_state _ _ _ _ _ _ H).
Defined.

(** C3, refuted as stated: on a fresh instance, a load that fails at
    cluster validation leaves the definition assigned; [getStage] and
    [default], which gave nothing before, now give its cluster.  A load
    of [{a: b, b: a}] fails in alias resolution, whatever the budget, and
    leaves the unresolved stages readable. *)
Lemma failed_load_exposes_definition :
  getStage sample_instance (str "default") false = Return None ∧
  get_default sample_instance = None ∧
  getStage sample_instance (str "a") false = Return None ∧
  (∃ this' e,
     load 2 (sample_host definition_default) sample_instance env_none =
       (this', Throw e) ∧
     getStage this' (str "default") false = Return (Some (vstr "local")) ∧
     get_default this' = Some (vstr "local")) ∧
  (∀ depth, ∃ this',
     load depth (sample_host definition_cyclic) sample_instance env_local =
       (this', Throw RangeError) ∧
     getStage this' (str "a") false = Return (Some (vstr "b"))).
Proof.
  split; [done|]. split; [done|]. split; [done|]. split.
  - eexists _, _. split; [vm_compute; reflexivity|].
    split; vm_compute; reflexivity.
  - intros depth. eexists. unfold load, sample_instance. simpl.
    rewrite (resolveStageAliases_cycle stages_cyclic depth).
    + split; [reflexivity|]. vm_compute. reflexivity.
    + exists (vstr "a"). destruct stages_cyclic_follows as [Hab Hba].
      eapply tc_l; [exact Hab|]. by apply tc_once.
Qed.

(** C4, amended: for a definition whose [secret] is present and for
    which the earlier steps of [load] pass, the empty string counts as
    absent ([secrets] is null, and [load] fails with the missing-secret
    error unless [disableAuth] is true); any other secret makes [load]
    succeed with [secrets] the list, never empty, of the comma-separated
    pieces of the secret without its whitespace.  Pieces may be empty:
    nothing rejects a secret with no non-empty piece. *)
Theorem load_secret_present depth host this env d s :
  reaches_secret_step depth host this env d →
  secret d = Some s →
  ∃ this',
    match s with
    | [] =>
        secrets this' = None ∧
        load depth host this env =
          (this', if auth_disabled d then Return tt
                       else Throw MissingSecret)
    | _ :: _ =>
        secrets this' = Some (split_comma (remove_whitespace s)) ∧
        split_comma (remove_whitespace s) ≠ [] ∧
        load depth host this env = (this', Return tt)
    end.
Proof.
  intros Hsteps Hs.
  destruct (reaches_secret_step_load _ _ _ _ _ Hsteps)
    as (this' & Hsecrets & _ & Hload).
  exists this'. rewrite Hs in Hsecrets, Hload.
  destruct s as [|c s]; simpl in Hsecrets, Hload; [done|].
  split; [done|]. split; [apply split_comma_nonempty|done].
Qed.

Lemma load_secret_present_witness :
  reaches_secret_step 2 (sample_host definition_blank_secret) sample_instance
    env_local definition_blank_secret ∧
  secret definition_blank_secret = Some (str " ") ∧
  ∃ this',
    secrets this' = Some (split_comma (remove_whitespace (str " "))) ∧
    split_comma (remove_whitespace (str " ")) ≠ [] ∧
    load 2 (sample_host definition_blank_secret) sample_instance env_local =
      (this', Return tt).
Proof.
  assert (reaches_secret_step 2 (sample_host definition_blank_secret)
            sample_instance env_local definition_blank_secret) as H
    by (eexists (str "graphcool.yml"), _, stages_default, _;
        repeat split; vm_compute; reflexivity).
  split; [exact H|]. split; [reflexivity|].
  exact (load_secret_present _ _ _ _ _ _ H eq_refl).
Defined.

(** C4, refuted as stated: [secret: " "] is present and has no non-empty
    piece, yet [load] succeeds, with the one-element list [[""]] as
    secrets. *)
Lemma blank_secret_is_accepted :
  split_comma (remove_whitespace (str " ")) = [[]] ∧
  ∃ this',
    load 2 (sample_host definition_blank_secret) sample_instance env_local =
      (this', Return tt) ∧
    secrets this' = Some [[]].
Proof.
  split; [reflexivity|]. eexists. split; vm_compute; reflexivity.
Qed.

(** C5: for every definition with [secret] absent, once the earlier
    steps of [load] pass, [load] fails with the missing-secret error if
    and only if [disableAuth] is not true; with [disableAuth] true it
    succeeds and [secrets] is null. *)
Theorem load_secret_absent depth host this env d :
  reaches_secret_step depth host this env d →
  secret d = None →
  ((∃ this', load depth host this env = (this', Throw MissingSecret))
   ↔ disableAuth d ≠ Some true) ∧
  (disableAuth d = Some true →
   ∃ this', load depth host this env = (this', Return tt) ∧
            secrets this' = None).
Proof.
  intros Hsteps Hs.
  destruct (reaches_secret_step_load _ _ _ _ _ Hsteps)
    as (this' & Hsecrets & _ & Hload).
  rewrite Hs in Hsecrets, Hload. simpl in Hsecrets, Hload.
  unfold auth_disabled in Hload. split; [split|].
  - intros [this'' Hfail] Htrue. rewrite Htrue in Hload. congruence.
  - intros Hnot. exists this'.
    destruct (disableAuth d) as [[|]|]; done.
  - intros Htrue. exists this'. by rewrite Htrue in Hload.
Qed.

Lemma load_secret_absent_witness :
  reaches_secret_step 2 (sample_host definition_noauth) sample_instance
    env_local definition_noauth ∧
  secret definition_noauth = None ∧
  ((∃ this', load 2 (sample_host definition_noauth) sample_instance env_local
             = (this', Throw MissingSecret))
   ↔ disableAuth definition_noauth ≠ Some true) ∧
  (disableAuth definition_noauth = Some true →
   ∃ this', load 2 (sample_host definition_noauth) sample_instance env_local
            = (this', Return tt) ∧
            secrets this' = None).
Proof.
  assert (reaches_secret_step 2 (sample_host definition_noauth)
            sample_instance env_local definition_noauth) as H
    by (eexists (str "graphcool.yml"), _, stages_default, _;
        repeat split; vm_compute; reflexivity).
  split; [exact H|]. split; [reflexivity|].
  exact (load_secret_absent _ _ _ _ _ H eq_refl).
Defined.

(** * Stage lookup after a load *)

Lemma check_clusters_ok env entries :
  check_clusters env entries = Return tt →
  ∀ stageName cluster, (stageName, cluster) ∈ entries →
                       cluster_known env cluster = true.
Proof.
  induction entries as [|[k v] entries IH]; simpl; intros Hok k' v' Hin.
  - by apply elem_of_nil in Hin.
  - destruct (cluster_known env v) eqn:E; [|done].
    apply elem_of_cons in Hin as [[= -> ->]|Hin]; eauto.
Qed.

Lemma cluster_known_name env cluster :
  cluster_known env cluster = true →
  ∃ c, c ∈ clusters env ∧ VString (name c) = cluster.
Proof.
  unfold cluster_known. intros (c & Hc & Hname)%existsb_exists.
  exists c. split; [by apply list_elem_of_In|by apply bool_decide_eq_true in Hname].
Qed.

Lemma ensureOfClusters_ok d env stageName cluster :
  ensureOfClusters d env = Return tt →
  stages d !! stageName = Some cluster →
  ∃ c, c ∈ clusters env ∧ VString (name c) = cluster.
Proof.
  intros Hok Hstage. apply cluster_known_name.
  eapply check_clusters_ok; [exact Hok|]. by apply elem_of_map_to_list.
Qed.

(** What a load that succeeds went through. *)
Lemma load_success depth host this env this' :
  load depth host this env = (this', Return tt) →
  ∃ d0 resolved,
    rawStages this' = Some (stages d0) ∧
    resolveStageAliases depth (stages d0) = Some resolved ∧
    definition this' = Some (set_stages d0 resolved) ∧
    ensureOfClusters (set_stages d0 resolved) env = Return tt.
Proof.
  unfold load.
  destruct (definitionPath (config this)) as [[|c path]|]; simpl; [done| |done].
  destruct (readDefinition host (c :: path)) as [e0|d0]; [done|].
  destruct (resolveStageAliases depth (stages d0)) as [resolved|] eqn:Hres;
    [|done].
  destruct (ensureOfClusters _ env) as [[]|] eqn:Hens; [|done].
  destruct (getTypesString _ _ _); [|done]. simpl.
  intros Hload. exists d0, resolved.
  destruct (parse_secret (secret d0)).
  - by injection Hload as <-.
  - destruct (negb _); [done|]. by injection Hload as <-.
Qed.

Lemma default_not_inherited : str "default" ∉ Object_prototype_names.
Proof. refine (bool_decide_unpack _ _); vm_compute; exact I. Qed.

(** C9, amended: after a successful load in an environment where no
    cluster has the empty name, [getStage(name, throws)] returns the
    resolved cluster bound to [name] when [name] is a key of the resolved
    stages; when it is not a key but is the name of a property inherited
    from [Object.prototype], it returns the inherited value, with no
    fallback and no error; otherwise it falls back to the cluster bound
    to [default], and when nothing is found it throws [StageNotFound]
    exactly when [throws] is true and otherwise returns undefined. *)
Theorem getStage_after_load depth host this env this' :
  load depth host this env = (this', Return tt) →
  (∀ c, c ∈ clusters env → name c ≠ []) →
  ∃ raw resolved d,
    rawStages this' = Some raw ∧
    resolveStageAliases depth raw = Some resolved ∧
    definition this' = Some d ∧ stages d = resolved ∧
    ∀ stageName throws,
      getStage this' stageName throws =
      match resolved !! stageName with
      | Some cluster => Return (Some cluster)
      | None =>
          if decide (stageName ∈ Object_prototype_names)
          then Return (Some (VInherited stageName))
          else
            match resolved !! str "default" with
            | Some cluster => Return (Some cluster)
            | None => if throws then Throw (StageNotFound stageName)
                      else Return None
            end
      end.
Proof.
  intros (d0 & resolved & Hraw & Hres & Hdef & Hens)%load_success Hnames.
  exists (stages d0), resolved, (set_stages d0 resolved).
  repeat (split; [done|]).
  assert (∀ k v, resolved !! k = Some v → truthy_value (Some v) = true)
    as Hne.
  { intros k v Hk.
    destruct (ensureOfClusters_ok _ _ k v Hens Hk) as (c & Hc & <-).
    specialize (Hnames c Hc). by destruct (name c). }
  intros stageName throws. unfold getStage, js_or. rewrite Hdef.
  change (stages (set_stages d0 resolved)) with resolved.
  rewrite (js_get_not_inherited resolved _ default_not_inherited).
  unfold js_get.
  destruct (resolved !! stageName) as [v|] eqn:E1.
  - pose proof (Hne _ _ E1) as Hv.
    destruct v as [[|c s]|inherited]; try done; by destruct throws.
  - case_decide; [by destruct throws|].
    destruct (resolved !! str "default") as [v|] eqn:E2.
    + pose proof (Hne _ _ E2) as Hv.
      destruct v as [[|c s]|inherited]; try done; by destruct throws.
    + by destruct throws.
Qed.

Lemma getStage_after_load_witness :
  load 2 (sample_host definition_noauth) sample_instance env_local =
    (instance_after
       (load 2 (sample_host definition_noauth) sample_instance env_local),
     Return tt) ∧
  (∀ c, c ∈ clusters env_local → name c ≠ []) ∧
  ∃ raw resolved d,
    rawStages
      (instance_after
         (load 2 (sample_host definition_noauth) sample_instance env_local))
    = Some raw ∧
    resolveStageAliases 2 raw = Some resolved ∧
    definition
      (instance_after
         (load 2 (sample_host definition_noauth) sample_instance env_local))
    = Some d ∧ stages d = resolved ∧
    ∀ stageName throws,
      getStage
        (instance_after
           (load 2 (sample_host definition_noauth) sample_instance env_local))
        stageName throws =
      match resolved !! stageName with
      | Some cluster => Return (Some cluster)
      | None =>
          if decide (stageName ∈ Object_prototype_names)
          then Return (Some (VInherited stageName))
          else
            match resolved !! str "default" with
            | Some cluster => Return (Some cluster)
            | None => if throws then Throw (StageNotFound stageName)
                      else Return None
            end
      end.
Proof.
  assert (load 2 (sample_host definition_noauth) sample_instance env_local =
          (instance_after
             (load 2 (sample_host definition_noauth) sample_instance
                env_local),
           Return tt)) as H
    by (vm_compute; reflexivity).
  assert (∀ c, c ∈ clusters env_local → name c ≠ []) as Hnames
    by (intros c Hc; apply list_elem_of_In in Hc;
        destruct Hc as [<-|[]]; vm_compute; discriminate).
  split; [exact H|]. split; [exact Hnames|].
  exact (getStage_after_load _ _ _ _ _ H Hnames).
Defined.

(** C9, refuted as stated: with a cluster whose name is the empty string,
    a load of [stages: {dev: "", default: local}] succeeds and binds
    [dev] to that cluster, but [getStage("dev")] gives the cluster of
    [default].  After a load of [stages: {default: local}],
    [getStage("constructor", true)] neither falls back to the cluster of
    [default] nor throws: it returns the function that
    [Object.prototype] holds as [constructor]. *)
Lemma getStage_skips_empty_cluster_name :
  (∃ this' d,
     load 2 (sample_host definition_unnamed) sample_instance env_unnamed =
       (this', Return tt) ∧
     definition this' = Some d ∧
     stages d !! str "dev" = Some (VString []) ∧
     getStage this' (str "dev") false = Return (Some (vstr "local")) ∧
     getStage this' (str "dev") true = Return (Some (vstr "local"))) ∧
  (∃ this' d,
     load 2 (sample_host definition_noauth) sample_instance env_local =
       (this', Return tt) ∧
     definition this' = Some d ∧
     stages d !! str "constructor" = None ∧
     stages d !! str "default" = Some (vstr "local") ∧
     getStage this' (str "constructor") true =
       Return (Some (VInherited (str "constructor")))).
Proof.
  split.
  - eexists _, _. split; [vm_compute; reflexivity|].
    split; [reflexivity|]. repeat split; vm_compute; reflexivity.
  - eexists _, _. split; [vm_compute; reflexivity|].
    split; [reflexivity|]. repeat split; vm_compute; reflexivity.
Qed.
(** * Token issuance *)

(** C6, amended: without secrets, [getToken] returns undefined and does
    not throw; with secrets it returns the token that [jwt.sign] makes
    from the payload
    [{ data: { service: "<serviceName>@<stageName>", roles: ["admin"] } }]
    (the claims are nested under [data]), the first secret of the list
    and the expiry option ['1h'].  (An empty array hands undefined to
    [jwt.sign] as the key.) *)
Theorem getToken_result this serviceName stageName :
  snd (getToken this serviceName stageName) =
  match secrets this with
  | None => None
  | Some l =>
      Some (jwt_sign
              (JObject
                 [(str "data",
                   JObject
                     [(str "service",
                       JString (serviceName ++ str "@" ++ stageName));
                      (str "roles", JArray [JString (str "admin")])])])
              match l with
              | first :: _ => JString first
              | [] => JUndefined
              end
              (str "1h"))
  end.
Proof. unfold getToken. by destruct (secrets this) as [[|first l]|]. Qed.

(** C6, refuted as stated: with secrets [["s1"]], the payload signed for
    [myservice] and [prod] is not
    [{ service: "myservice@prod", roles: ["admin"] }]; it is that object
    under the key [data]. *)
Lemma getToken_payload_is_nested :
  ∃ payload,
    snd (getToken instance_with_secret (str "myservice") (str "prod")) =
      Some (jwt_sign payload (JString (str "s1")) (str "1h")) ∧
    payload =
      JObject
        [(str "data",
          JObject [(str "service", JString (str "myservice@prod"));
                   (str "roles", JArray [JString (str "admin")])])] ∧
    payload ≠
      JObject [(str "service", JString (str "myservice@prod"));
               (str "roles", JArray [JString (str "admin")])].
Proof.
  eexists. split; [reflexivity|]. split; [reflexivity|].
  vm_compute. discriminate.
Qed.

(** C7, the code at the failing input: with secrets [["s1"]],
    [getToken("myservice", "prod")] writes the claims and the secret
    ["s1"] to the console. *)
Theorem getToken_logs_secret :
  fst (getToken instance_with_secret (str "myservice") (str "prod")) =
  [[JObject
      [(str "data",
        JObject [(str "service", JString (str "myservice@prod"));
                 (str "roles", JArray [JString (str "admin")])])];
    JString (str "s1")]].
Proof. reflexivity. Qed.

(** Whenever there is a first secret, it is among the values written to
    the console. *)
Lemma getToken_logs_first_secret this serviceName stageName first rest :
  secrets this = Some (first :: rest) →
  fst (getToken this serviceName stageName) =
  [[token_data serviceName stageName; JString first]].
Proof. intros Hsecrets. unfold getToken. by rewrite Hsecrets. Qed.

(** * Patching the text *)





Section TextPatcher.
Variable safeLoad : jsstring → option YAMLDocument.
Variables (file key insertion : jsstring).
Variables (obj : YAMLDocument) (ms : list YAMLMapping).
Hypothesis Hparse : safeLoad file = Some obj.
Hypothesis Hmap : mappings obj = Some ms.

Lemma insertToDefinition_absent :
  List.find (λ m, bool_decide (key_value m = key)) ms = None →
  insertToDefinition safeLoad file key insertion =
  Return (file ++ newline ++ key ++ str ": " ++ insertion).
Proof.
  intros Hfind. unfold insertToDefinition. by rewrite Hparse, Hmap, Hfind.
Qed.

Lemma insertToDefinition_no_value mapping :
  List.find (λ m, bool_decide (key_value m = key)) ms = Some mapping →
  value mapping = None →
  insertToDefinition safeLoad file key insertion = Throw TypeError.
Proof.
  intros Hfind Hvalue. unfold insertToDefinition.
  by rewrite Hparse, Hmap, Hfind, Hvalue.
Qed.


End TextPatcher.




(** C10: when the first entry with the key has no value node,
    [insertToDefinition] throws a [TypeError] instead of returning a
    patched text: [mapping.value.startPosition] is read before
    [mapping.value] is tested. *)
Theorem insertToDefinition_null_value_throws
    safeLoad file key insertion obj ms mapping :
  safeLoad file = Some obj →
  mappings obj = Some ms →
  List.find (λ m, bool_decide (key_value m = key)) ms = Some mapping →
  value mapping = None →
  insertToDefinition safeLoad file key insertion = Throw TypeError.
Proof. intros. by eapply insertToDefinition_no_value. Qed.

Lemma insertToDefinition_null_value_throws_witness :
  List.find (λ m, bool_decide (key_value m = str "stages"))
    [mapping_stages_no_value] = Some mapping_stages_no_value ∧
  value mapping_stages_no_value = None ∧
  insertToDefinition yaml_stages_no_value text_stages_no_value (str "stages")
    insertion_dev = Throw TypeError.
Proof.
  split; [reflexivity|]. split; [reflexivity|].
  exact (insertToDefinition_null_value_throws yaml_stages_no_value
           text_stages_no_value (str "stages") insertion_dev _ _
           mapping_stages_no_value eq_refl eq_refl eq_refl eq_refl).
Defined.

(** * The operations on sample inputs *)

Example resolveStageAliases_chain :
  resolveStageAliases 3 stages_chain =
  Some {[ str "dev" := vstr "local"; str "staging" := vstr "local" ]}.
Proof. vm_compute. reflexivity. Qed.

Example resolveStageAliases_chain_short_budget :
  resolveStageAliases 1 stages_chain = None.
Proof. vm_compute. reflexivity. Qed.

Example parse_secret_list :
  parse_secret (Some (str "a, b , c")) = Some [str "a"; str "b"; str "c"].
Proof. reflexivity. Qed.

Example parse_secret_empty : parse_secret (Some []) = None.
Proof. reflexivity. Qed.

Example getStage_staging :
  getStage instance_staging (str "staging") false
  = Return (Some (vstr "clusterA")).
Proof. vm_compute. reflexivity. Qed.

Example getStage_fallback :
  getStage instance_staging (str "missing") true
  = Return (Some (vstr "clusterA")).
Proof. vm_compute. reflexivity. Qed.

Example getStage_missing_throws :
  getStage instance_dev (str "missing") true
  = Throw (StageNotFound (str "missing")).
Proof. vm_compute. reflexivity. Qed.

Example getStage_missing_undefined :
  getStage instance_dev (str "missing") false = Return None.
Proof. vm_compute. reflexivity. Qed.

Example getToken_no_secrets :
  getToken sample_instance (str "myservice") (str "prod") = ([], None).
Proof. reflexivity. Qed.

Example insertToDefinition_empty_stages :
  insertToDefinition yaml_empty_stages text_empty_stages (str "stages")
    insertion_dev
  = Return (str "stages: " ++ newline ++ str "  dev: local").
Proof. vm_compute. reflexivity. Qed.

Example insertToDefinition_new_key :
  insertToDefinition yaml_empty_stages text_empty_stages (str "secret")
    (str "s1")
  = Return (str "stages: {}" ++ newline ++ str "secret: s1").
Proof. vm_compute. reflexivity. Qed.

Example load_no_definition_path :
  load 0 (sample_host definition_default)
    (constructor {| definitionPath := None; definitionDir := [] |}) env_local
  = (constructor {| definitionPath := None; definitionDir := [] |},
     Throw NoDefinitionFile).
Proof. reflexivity. Qed.

Example load_missing_secret :
  snd (load 2 (sample_host definition_default) sample_instance env_local)
  = Throw MissingSecret.
Proof. vm_compute. reflexivity. Qed.


Example getStage_inherited_name :
  getStage instance_dev (str "toString") true
  = Return (Some (VInherited (str "toString"))).
Proof. vm_compute. reflexivity. Qed.

Example resolveStageAliases_inherited_name :
  resolveStageAliases 2 stages_constructor =
  Some {[ str "dev" := VInherited (str "constructor") ]}.
Proof. vm_compute. reflexivity. Qed.

Example resolveStageAliases_native_cycle :
  resolveStageAliases 9 stages_native_cycle = None.
Proof. vm_compute. reflexivity. Qed.

Example load_cyclic :
  snd (load 9 (sample_host definition_cyclic) sample_instance env_local)
  = Throw RangeError.
Proof. vm_compute. reflexivity. Qed.
(** * Further properties of alias resolution *)

(** X1: alias resolution returns, for some budget, exactly on the
    mappings without a cycle of truthy targets, where the reads that make
    up the cycle also see the names inherited from [Object.prototype]. *)
Theorem resolveStageAliases_returns_iff (m : Stages) :
  (∃ depth m', resolveStageAliases depth m = Some m') ↔
  ∀ k, ¬ tc (follows m) k k.
Proof.
  split.
  - intros (depth & m' & Hres) k Hk.
    rewrite resolveStageAliases_cycle in Hres by eauto. done.
  - intros Hacyc.
    destruct (resolveStageAliases_acyclic m
                (S (size (dom m ∪ list_to_set Object_prototype_names))) Hacyc)
      as (m' & Hres & _); [lia|]. eauto.
Qed.

(** X2: the result does not depend on the budget: a larger budget gives
    the same mapping. *)
Theorem resolveStageAliases_budget (m m' : Stages) (depth depth' : nat) :
  resolveStageAliases depth m = Some m' → (depth ≤ depth')%nat →
  resolveStageAliases depth' m = Some m'.
Proof.
  intros [Hall ->]%resolveStageAliases_Some Hle.
  apply resolveStageAliases_Some. split.
  - intros k target Hk. destruct (Hall k target Hk) as [v Hv].
    exists v. by eapply resolveStage_mono.
  - apply map_eq. intros k. rewrite !lookup_omap.
    destruct (m !! k) as [target|] eqn:Hk; simpl; [|done].
    destruct (Hall k target Hk) as [v Hv]. rewrite Hv.
    symmetry. by eapply resolveStage_mono.
Qed.

Lemma resolveStageAliases_budget_witness :
  resolveStageAliases 3 stages_chain = Some stages_chain_resolved ∧
  (3 ≤ 5)%nat ∧
  resolveStageAliases 5 stages_chain = Some stages_chain_resolved.
Proof.
  assert (resolveStageAliases 3 stages_chain = Some stages_chain_resolved)
    as H by (vm_compute; reflexivity).
  assert (3 ≤ 5)%nat as Hle by lia.
  split; [exact H|]. split; [exact Hle|].
  exact (resolveStageAliases_budget _ _ _ _ H Hle).
Defined.

Lemma resolveStageAliases_terminal_values (m : Stages) (depth : nat) :
  (∀ k v, m !! k = Some v → terminal m v) → (0 < depth)%nat →
  resolveStageAliases depth m = Some m.
Proof.
  intros Hterm Hdepth. destruct depth as [|depth]; [lia|].
  apply resolveStageAliases_Some. split.
  - intros k v Hk. rewrite resolveStage_stop; eauto.
  - apply map_eq. intros k. rewrite lookup_omap.
    destruct (m !! k) as [v|] eqn:Hk; [|done].
    symmetry. change (resolveStage (S depth) v m = Some v).
    apply resolveStage_stop; eauto.
Qed.

(** X3: a mapping none of whose values names a key of the mapping or a
    property inherited from [Object.prototype] is returned unchanged. *)
Theorem resolveStageAliases_direct (m : Stages) (depth : nat) :
  (∀ k v, m !! k = Some v → js_get m (property_key v) = None) →
  (0 < depth)%nat →
  resolveStageAliases depth m = Some m.
Proof.
  intros Hdirect. apply resolveStageAliases_terminal_values.
  intros k v Hk y [Hy _]. rewrite (Hdirect k v Hk) in Hy. done.
Qed.

Lemma resolveStageAliases_direct_witness :
  (∀ k v, stages_default !! k = Some v →
          js_get stages_default (property_key v) = None) ∧
  (0 < 1)%nat ∧
  resolveStageAliases 1 stages_default = Some stages_default.
Proof.
  assert (∀ k v, stages_default !! k = Some v →
                 js_get stages_default (property_key v) = None) as H.
  { intros k v Hk. unfold stages_default in Hk.
    apply lookup_singleton_Some in Hk as [_ <-]. vm_compute. reflexivity. }
  assert (0 < 1)%nat as Hd by lia.
  split; [exact H|]. split; [exact Hd|].
  exact (resolveStageAliases_direct _ _ H Hd).
Defined.

(** X4: resolving is idempotent on mappings without empty value: the
    resolved mapping resolves to itself. *)
Theorem resolveStageAliases_idempotent (m m' : Stages) (depth depth' : nat) :
  resolveStageAliases depth m = Some m' → no_empty_value m →
  (0 < depth')%nat →
  resolveStageAliases depth' m' = Some m'.
Proof.
  intros Hres Hne Hdepth. apply resolveStageAliases_terminal_values; [|done].
  intros k v Hk y [Hy _].
  assert (js_get m (property_key v) = None) as Hv.
  { rewrite (resolveStageAliases_lookup _ _ _ _ Hres) in Hk.
    destruct (m !! k) as [target|]; simpl in Hk; [|done].
    apply resolveStage_sound in Hk as [_ Hterm].
    destruct (js_get m (property_key v)) as [w|] eqn:Hw; [|done].
    exfalso. apply (Hterm w). split; [done|].
    apply js_get_Some in Hw as [Hown|(_ & _ & ->)]; [|done].
    by apply (Hne _ _ Hown). }
  unfold js_get in Hv, Hy.
  destruct (m !! property_key v) as [w|] eqn:Hmv; [done|].
  assert (m' !! property_key v = None) as Hm'v.
  { apply not_elem_of_dom. rewrite (resolveStageAliases_dom _ _ _ Hres).
    by apply not_elem_of_dom. }
  rewrite Hm'v in Hy. by case_decide.
Qed.

Lemma resolveStageAliases_idempotent_witness :
  resolveStageAliases 3 stages_chain = Some stages_chain_resolved ∧
  no_empty_value stages_chain ∧ (0 < 1)%nat ∧
  resolveStageAliases 1 stages_chain_resolved = Some stages_chain_resolved.
Proof.
  assert (resolveStageAliases 3 stages_chain = Some stages_chain_resolved)
    as H by (vm_compute; reflexivity).
  assert (no_empty_value stages_chain) as Hne
    by (refine (bool_decide_unpack _ _); vm_compute; exact I).
  assert (0 < 1)%nat as Hd by lia.
  split; [exact H|]. split; [exact Hne|]. split; [exact Hd|].
  exact (resolveStageAliases_idempotent _ _ _ _ H Hne Hd).
Defined.

(** X5: resolution invents no name: every value of the resolved mapping
    is a value of the input mapping or a value inherited from
    [Object.prototype]. *)
Theorem resolveStageAliases_values (m m' : Stages) (depth : nat) k v :
  resolveStageAliases depth m = Some m' → m' !! k = Some v →
  (∃ k', m !! k' = Some v) ∨
  (∃ inherited, inherited ∈ Object_prototype_names ∧ v = VInherited inherited).
Proof.
  intros Hres Hk. rewrite (resolveStageAliases_lookup _ _ _ _ Hres) in Hk.
  destruct (m !! k) as [target|] eqn:Hmk; simpl in Hk; [|done].
  apply resolveStage_sound in Hk as [Hchain _].
  apply rtc_inv_r in Hchain as [->|(y & _ & [Hy _])]; [by eauto|].
  apply js_get_Some in Hy as [Hown|(_ & Hname & ->)]; by eauto.
Qed.

Lemma resolveStageAliases_values_witness :
  resolveStageAliases 3 stages_chain = Some stages_chain_resolved ∧
  stages_chain_resolved !! str "dev" = Some (vstr "local") ∧
  ((∃ k', stages_chain !! k' = Some (vstr "local")) ∨
   (∃ inherited, inherited ∈ Object_prototype_names ∧
                 vstr "local" = VInherited inherited)).
Proof.
  assert (resolveStageAliases 3 stages_chain = Some stages_chain_resolved)
    as H by (vm_compute; reflexivity).
  assert (stages_chain_resolved !! str "dev" = Some (vstr "local"))
    as Hk by (vm_compute; reflexivity).
  split; [exact H|]. split; [exact Hk|].
  exact (resolveStageAliases_values _ _ _ _ _ H Hk).
Defined.
(** * Further properties of the private helpers of load *)

Lemma cluster_known_iff env cluster :
  cluster_known env cluster = true ↔
  ∃ c, c ∈ clusters env ∧ VString (name c) = cluster.
Proof.
  split; [apply cluster_known_name|].
  intros (c & Hc & Hname). unfold cluster_known.
  apply existsb_exists. exists c.
  split; [by apply list_elem_of_In|by apply bool_decide_eq_true].
Qed.

Lemma check_clusters_Return env entries :
  (∀ stageName cluster, (stageName, cluster) ∈ entries →
                        cluster_known env cluster = true) →
  check_clusters env entries = Return tt.
Proof.
  induction entries as [|[k v] entries IH]; simpl; intros Hall; [done|].
  rewrite (Hall k v) by apply list_elem_of_here.
  apply IH. intros k' v' Hin. apply (Hall k' v'). by apply list_elem_of_further.
Qed.

Lemma check_clusters_Throw env entries e :
  check_clusters env entries = Throw e →
  ∃ stageName cluster,
    e = ClusterNotFound cluster stageName ∧
    (stageName, cluster) ∈ entries ∧
    cluster_known env cluster = false.
Proof.
  induction entries as [|[k v] entries IH]; simpl; [done|].
  destruct (cluster_known env v) eqn:Hv.
  - intros (k' & v' & -> & Hin & Hv')%IH.
    exists k', v'. split; [done|]. split; [by apply list_elem_of_further|done].
  - intros [= <-]. exists k, v.
    split; [done|]. split; [apply list_elem_of_here|done].
Qed.

(** X6: cluster validation passes exactly when every stage of the
    definition is bound to the name of a cluster of the environment. *)
Theorem ensureOfClusters_Return_iff d env :
  ensureOfClusters d env = Return tt ↔
  ∀ stageName cluster, stages d !! stageName = Some cluster →
                       ∃ c, c ∈ clusters env ∧ VString (name c) = cluster.
Proof.
  split.
  - intros Hok stageName cluster. by apply ensureOfClusters_ok.
  - intros Hall. apply check_clusters_Return.
    intros stageName cluster Hin%elem_of_map_to_list.
    apply cluster_known_iff. eauto.
Qed.

(** X7: when cluster validation throws, the error names a stage of the
    definition and the cluster the stage is bound to, and no cluster of
    the environment has that name. *)
Theorem ensureOfClusters_Throw d env e :
  ensureOfClusters d env = Throw e →
  ∃ stageName cluster,
    e = ClusterNotFound cluster stageName ∧
    stages d !! stageName = Some cluster ∧
    ∀ c, c ∈ clusters env → VString (name c) ≠ cluster.
Proof.
  intros (stageName & cluster & -> & Hin & Hknown)%check_clusters_Throw.
  exists stageName, cluster. split; [done|].
  split; [by apply elem_of_map_to_list|].
  intros c Hc Hname.
  assert (cluster_known env cluster = true) as Hk
    by (apply cluster_known_iff; eauto).
  congruence.
Qed.

Lemma ensureOfClusters_Throw_witness :
  ensureOfClusters definition_default env_none =
    Throw (ClusterNotFound (vstr "local") (str "default")) ∧
  ∃ stageName cluster,
    ClusterNotFound (vstr "local") (str "default") =
      ClusterNotFound cluster stageName ∧
    stages definition_default !! stageName = Some cluster ∧
    ∀ c, c ∈ clusters env_none → VString (name c) ≠ cluster.
Proof.
  assert (ensureOfClusters definition_default env_none =
          Throw (ClusterNotFound (vstr "local") (str "default"))) as H
    by (vm_compute; reflexivity).
  split; [exact H|]. exact (ensureOfClusters_Throw _ _ _ H).
Defined.

Lemma read_types_all host dir typesPaths allTypes :
  (∀ p, p ∈ typesPaths → existsSync host (path_join host dir p) = true) →
  read_types host dir typesPaths allTypes =
  Return (allTypes ++
          concat ((λ p, readFileSync host (path_join host dir p) ++ newline)
                    <$> typesPaths)).
Proof.
  revert allTypes.
  induction typesPaths as [|p rest IH]; intros allTypes Hall; simpl.
  - by rewrite app_nil_r.
  - rewrite (Hall p) by apply list_elem_of_here.
    rewrite IH by (intros q Hq; apply Hall; by apply list_elem_of_further).
    by rewrite <-!app_assoc.
Qed.

Lemma read_types_Throw host dir typesPaths allTypes e :
  read_types host dir typesPaths allTypes = Throw e →
  ∃ before p after,
    typesPaths = before ++ p :: after ∧
    (∀ q, q ∈ before → existsSync host (path_join host dir q) = true) ∧
    existsSync host (path_join host dir p) = false ∧
    e = TypesFileNotFound (path_join host dir p).
Proof.
  revert allTypes.
  induction typesPaths as [|p rest IH]; intros allTypes; simpl; [done|].
  destruct (existsSync host (path_join host dir p)) eqn:Hp.
  - intros (before & q & after & -> & Hbefore & Hq & ->)%IH.
    exists (p :: before), q, after. split; [done|].
    split; [|done]. intros r [->|Hr]%elem_of_cons; eauto.
  - intros [= <-]. exists [], p, rest. split; [done|].
    split; [|done]. intros q Hq. by apply elem_of_nil in Hq.
Qed.

(** X8: when every file of the datamodel exists, the types string is the
    concatenation, in the order of the datamodel, of the contents of the
    files, each followed by a newline. *)
Theorem getTypesString_all_exist host cfg d :
  (∀ p, p ∈ datamodel_paths (datamodel d) →
        existsSync host (path_join host (definitionDir cfg) p) = true) →
  getTypesString host cfg d =
  Return (concat ((λ p, readFileSync host
                          (path_join host (definitionDir cfg) p) ++ newline)
                    <$> datamodel_paths (datamodel d))).
Proof.
  intros Hall. unfold getTypesString.
  change (match datamodel d with
          | DatamodelPath p => [p]
          | DatamodelPaths ps => ps
          end) with (datamodel_paths (datamodel d)).
  by rewrite read_types_all.
Qed.

Lemma getTypesString_all_exist_witness :
  (∀ p, p ∈ datamodel_paths (datamodel definition_default) →
        existsSync (sample_host definition_default)
          (path_join (sample_host definition_default)
             (definitionDir sample_config) p) = true) ∧
  getTypesString (sample_host definition_default) sample_config
    definition_default =
  Return (concat ((λ p, readFileSync (sample_host definition_default)
                          (path_join (sample_host definition_default)
                             (definitionDir sample_config) p) ++ newline)
                    <$> datamodel_paths (datamodel definition_default))).
Proof.
  assert (∀ p, p ∈ datamodel_paths (datamodel definition_default) →
               existsSync (sample_host definition_default)
                 (path_join (sample_host definition_default)
                    (definitionDir sample_config) p) = true) as H
    by (intros p _; reflexivity).
  split; [exact H|]. exact (getTypesString_all_exist _ _ _ H).
Defined.

(** X9: when the types string cannot be built, the error names the first
    file of the datamodel that does not exist; the files before it
    exist. *)
Theorem getTypesString_Throw host cfg d e :
  getTypesString host cfg d = Throw e →
  ∃ before p after,
    datamodel_paths (datamodel d) = before ++ p :: after ∧
    (∀ q, q ∈ before →
          existsSync host (path_join host (definitionDir cfg) q) = true) ∧
    existsSync host (path_join host (definitionDir cfg) p) = false ∧
    e = TypesFileNotFound (path_join host (definitionDir cfg) p).
Proof. unfold getTypesString. apply read_types_Throw. Qed.

Lemma getTypesString_Throw_witness :
  getTypesString (host_no_files definition_default) sample_config
    definition_default = Throw (TypesFileNotFound (str "./types.graphql")) ∧
  ∃ before p after,
    datamodel_paths (datamodel definition_default) = before ++ p :: after ∧
    (∀ q, q ∈ before →
          existsSync (host_no_files definition_default)
            (path_join (host_no_files definition_default)
               (definitionDir sample_config) q) = true) ∧
    existsSync (host_no_files definition_default)
      (path_join (host_no_files definition_default)
         (definitionDir sample_config) p) = false ∧
    TypesFileNotFound (str "./types.graphql") =
      TypesFileNotFound
        (path_join (host_no_files definition_default)
           (definitionDir sample_config) p).
Proof.
  assert (getTypesString (host_no_files definition_default) sample_config
            definition_default
          = Throw (TypesFileNotFound (str "./types.graphql"))) as H
    by reflexivity.
  split; [exact H|]. exact (getTypesString_Throw _ _ _ _ H).
Defined.

(** * Further properties of the secrets *)

Lemma join_comma_cons piece pieces :
  pieces ≠ [] →
  join_comma (piece :: pieces) = piece ++ comma :: join_comma pieces.
Proof. by destruct pieces. Qed.

Lemma join_split_comma (s : jsstring) : join_comma (split_comma s) = s.
Proof.
  induction s as [|c s IH]; simpl; [done|].
  destruct (c =? comma)%N eqn:Hc.
  - apply N.eqb_eq in Hc as ->.
    rewrite join_comma_cons by apply split_comma_nonempty.
    by rewrite IH.
  - pose proof (split_comma_nonempty s) as Hne.
    destruct (split_comma s) as [|piece pieces]; [done|].
    destruct pieces as [|piece' pieces]; simpl in *; by rewrite <-IH.
Qed.

Lemma split_comma_length (s : jsstring) :
  length (split_comma s) = S (count_commas s).
Proof.
  unfold count_commas. induction s as [|c s IH]; simpl; [done|].
  destruct (c =? comma)%N; simpl; [by rewrite IH|].
  pose proof (split_comma_nonempty s) as Hne.
  destruct (split_comma s) as [|piece pieces]; [done|]. by rewrite <-IH.
Qed.

Lemma split_comma_no_comma (s piece : jsstring) :
  piece ∈ split_comma s → comma ∉ piece.
Proof.
  revert piece. induction s as [|c s IH]; simpl; intros piece.
  - intros ->%list_elem_of_singleton. apply not_elem_of_nil.
  - destruct (c =? comma)%N eqn:Hc.
    + intros [->|Hin]%elem_of_cons; [apply not_elem_of_nil|by apply IH].
    + apply N.eqb_neq in Hc.
      destruct (split_comma s) as [|first pieces];
        [intros ->%list_elem_of_singleton Hin;
         apply list_elem_of_singleton in Hin; congruence|].
      intros [->|Hin]%elem_of_cons.
      * intros [Heq|Hin]%elem_of_cons; [done|].
        by apply (IH first); [apply list_elem_of_here|].
      * apply IH. by apply list_elem_of_further.
Qed.

Lemma split_comma_subset (s piece : jsstring) c :
  piece ∈ split_comma s → c ∈ piece → c ∈ s.
Proof.
  intros Hpiece Hc. rewrite <-(join_split_comma s).
  revert Hpiece. generalize (split_comma s) as pieces.
  induction pieces as [|first pieces IH]; [by intros ?%elem_of_nil|].
  destruct pieces as [|second pieces].
  - intros ->%list_elem_of_singleton. done.
  - rewrite join_comma_cons by done.
    intros [->|Hin]%elem_of_cons; [set_solver|].
    apply elem_of_app. right. apply list_elem_of_further. by apply IH.
Qed.

(** X10: parsing loses nothing but whitespace: for a non-empty raw
    secret, joining the secrets with commas gives back the raw secret
    without its whitespace, and there is one secret more than the raw
    secret has commas. *)
Theorem parse_secret_join (s : jsstring) (l : list jsstring) :
  parse_secret (Some s) = Some l →
  join_comma l = remove_whitespace s ∧
  length l = S (count_commas s).
Proof.
  unfold parse_secret. destruct (truthy (Some s)); [|done].
  intros [= <-]. split; [apply join_split_comma|].
  rewrite split_comma_length. f_equal. unfold count_commas, remove_whitespace.
  f_equal. clear. induction s as [|c s IH]; simpl; [done|].
  destruct (c =? comma)%N eqn:Hc.
  - apply N.eqb_eq in Hc as ->. simpl. by rewrite IH.
  - destruct (negb (is_whitespace c)); simpl; [by rewrite Hc|done].
Qed.

Lemma parse_secret_join_witness :
  parse_secret (Some (str "a, b , c")) = Some [str "a"; str "b"; str "c"] ∧
  join_comma [str "a"; str "b"; str "c"] = remove_whitespace (str "a, b , c") ∧
  length [str "a"; str "b"; str "c"] = S (count_commas (str "a, b , c")).
Proof.
  assert (parse_secret (Some (str "a, b , c"))
          = Some [str "a"; str "b"; str "c"]) as H by reflexivity.
  split; [exact H|]. exact (parse_secret_join _ _ H).
Defined.

(** X11: no secret contains a whitespace character or a comma. *)
Theorem parse_secret_clean (raw : option jsstring) (l : list jsstring)
    (piece : jsstring) (c : N) :
  parse_secret raw = Some l → piece ∈ l → c ∈ piece →
  is_whitespace c = false ∧ c ≠ comma.
Proof.
  unfold parse_secret. destruct raw as [s|]; [|done].
  destruct (truthy (Some s)); [|done]. intros [= <-] Hpiece Hc. split.
  - pose proof (split_comma_subset _ _ _ Hpiece Hc) as Hin.
    unfold remove_whitespace in Hin.
    apply list_elem_of_In, filter_In in Hin as [_ Hws].
    by destruct (is_whitespace c).
  - intros ->. by apply (split_comma_no_comma _ _ Hpiece).
Qed.

Lemma parse_secret_clean_witness :
  parse_secret (Some (str "a, b , c")) = Some [str "a"; str "b"; str "c"] ∧
  str "b" ∈ [str "a"; str "b"; str "c"] ∧ 98%N ∈ str "b" ∧
  is_whitespace 98 = false ∧ 98%N ≠ comma.
Proof.
  assert (parse_secret (Some (str "a, b , c"))
          = Some [str "a"; str "b"; str "c"]) as H by reflexivity.
  assert (str "b" ∈ [str "a"; str "b"; str "c"]) as Hb
    by (apply list_elem_of_further, list_elem_of_here).
  assert (98%N ∈ str "b") as Hc by apply list_elem_of_here.
  split; [exact H|]. split; [exact Hb|]. split; [exact Hc|].
  exact (parse_secret_clean _ _ _ _ H Hb Hc).
Defined.

(** * Further properties of load *)

(** What a call of [load] that got a definition from the reader went
    through, by the way it completes. *)
Lemma load_read_inv depth host this env path d0 this' r :
  definitionPath (config this) = Some path →
  truthy (Some path) = true →
  readDefinition host path = inr d0 →
  load depth host this env = (this', r) →
  config this' = config this ∧
  rawStages this' = Some (stages d0) ∧
  definitionString this' = Some (readFileSync host path) ∧
  match resolveStageAliases depth (stages d0) with
  | None => r = Throw RangeError ∧ definition this' = Some d0
  | Some resolved =>
      definition this' = Some (set_stages d0 resolved) ∧
      match r with
      | Throw e =>
          ensureOfClusters (set_stages d0 resolved) env = Throw e ∨
          (ensureOfClusters (set_stages d0 resolved) env = Return tt ∧
           getTypesString host (config this) (set_stages d0 resolved)
             = Throw e) ∨
          (reaches_secret_step depth host this env (set_stages d0 resolved) ∧
           e = MissingSecret ∧ parse_secret (secret d0) = None ∧
           auth_disabled d0 = false ∧ secrets this' = None)
      | Return _ =>
          reaches_secret_step depth host this env (set_stages d0 resolved) ∧
          secrets this' = parse_secret (secret d0) ∧
          (parse_secret (secret d0) = None → auth_disabled d0 = true) ∧
          ∃ types,
            getTypesString host (config this) (set_stages d0 resolved)
              = Return types ∧
            typesString this' = Some types
      end
  end.
Proof.
  intros Hpath Htruthy Hread. unfold load. rewrite Hpath, Htruthy, Hread.
  destruct (resolveStageAliases depth (stages d0)) as [resolved|] eqn:Hres;
    [|by intros [= <- <-]].
  simpl. intros Hload.
  destruct (ensureOfClusters (set_stages d0 resolved) env) as [[]|e] eqn:Hens;
    [|injection Hload as <- <-; repeat (split; [done|]); by left].
  destruct (getTypesString host (config this) (set_stages d0 resolved))
    as [types|e] eqn:Htypes;
    [|injection Hload as <- <-; repeat (split; [done|]); right; by left].
  assert (reaches_secret_step depth host this env (set_stages d0 resolved))
    as Hsteps by (by exists path, d0, resolved, types).
  simpl in Hload.
  destruct (parse_secret (secret d0)) as [l|] eqn:Hsec.
  - injection Hload as <- <-. repeat (split; [done|]). by exists types.
  - unfold auth_disabled in *. simpl in Hload.
    destruct (disableAuth d0) as [[|]|]; simpl in Hload;
      injection Hload as <- <-; repeat (split; [done|]).
    + by exists types.
    + right. right. done.
    + right. right. done.
Qed.

Lemma load_Return_read depth host this env this' :
  load depth host this env = (this', Return tt) →
  ∃ path d0,
    definitionPath (config this) = Some path ∧
    truthy (Some path) = true ∧
    readDefinition host path = inr d0.
Proof.
  unfold load.
  destruct (definitionPath (config this)) as [[|c path]|]; simpl; [done| |done].
  destruct (readDefinition host (c :: path)) as [e0|d0] eqn:Hread; [done|].
  intros _. by exists (c :: path), d0.
Qed.

Lemma load_Return_inv depth host this env this' :
  load depth host this env = (this', Return tt) →
  ∃ d,
    reaches_secret_step depth host this env d ∧
    definition this' = Some d ∧
    secrets this' = parse_secret (secret d) ∧
    (parse_secret (secret d) = None → disableAuth d = Some true).
Proof.
  intros Hload.
  destruct (load_Return_read _ _ _ _ _ Hload)
    as (path & d0 & Hpath & Htruthy & Hread).
  destruct (load_read_inv _ _ _ _ _ _ _ _ Hpath Htruthy Hread Hload)
    as (_ & _ & _ & Hinv).
  destruct (resolveStageAliases depth (stages d0)) as [resolved|];
    [|by destruct Hinv].
  destruct Hinv as (Hdef & Hsteps & Hsec & Hauth & _).
  exists (set_stages d0 resolved). repeat (split; [done|]).
  simpl. intros Hnone. specialize (Hauth Hnone).
  unfold auth_disabled in Hauth. by destruct (disableAuth d0) as [[|]|].
Qed.

(** X12: a successful load leaves no trace of the earlier state of the
    instance: two instances with the same configuration end as the same
    instance. *)
Theorem load_success_forgets depth host this1 this2 env this' :
  config this1 = config this2 →
  load depth host this1 env = (this', Return tt) →
  load depth host this2 env = (this', Return tt).
Proof.
  intros Hcfg. unfold load. rewrite <-Hcfg.
  destruct (definitionPath (config this1)) as [[|c path]|]; simpl; [done| |done].
  destruct (readDefinition host (c :: path)) as [e0|d0]; [done|].
  destruct (resolveStageAliases depth (stages d0)) as [resolved|]; [|done].
  destruct (ensureOfClusters _ env) as [[]|]; [|done].
  rewrite <-Hcfg. destruct (getTypesString _ _ _); [|done]. simpl.
  unfold set_secrets, set_typesString, set_definition, set_rawStages,
    set_definitionString. simpl. rewrite <-Hcfg.
  destruct (parse_secret (secret d0)); [done|]. by destruct (negb _).
Qed.

Lemma load_success_forgets_witness :
  config instance_staging = config sample_instance ∧
  load 2 (sample_host definition_noauth) instance_staging env_local =
    (instance_after
            (load 2 (sample_host definition_noauth) instance_staging
               env_local),
          Return tt) ∧
  load 2 (sample_host definition_noauth) sample_instance env_local =
    (instance_after
            (load 2 (sample_host definition_noauth) instance_staging
               env_local),
          Return tt).
Proof.
  assert (config instance_staging = config sample_instance) as Hcfg
    by reflexivity.
  assert (load 2 (sample_host definition_noauth) instance_staging env_local =
          (instance_after
                  (load 2 (sample_host definition_noauth) instance_staging
                     env_local),
                Return tt)) as H
    by (vm_compute; reflexivity).
  split; [exact Hcfg|]. split; [exact H|].
  exact (load_success_forgets _ _ _ _ _ _ Hcfg H).
Defined.

(** X13: after a successful load, for a name that is not the name of a
    property inherited from [Object.prototype], whatever [getStage]
    returns, other than undefined, is the name of a cluster of the
    environment. *)
Theorem getStage_after_load_known depth host this env this'
    stageName throws cluster :
  load depth host this env = (this', Return tt) →
  stageName ∉ Object_prototype_names →
  getStage this' stageName throws = Return (Some cluster) →
  ∃ c, c ∈ clusters env ∧ VString (name c) = cluster.
Proof.
  intros (d0 & resolved & _ & _ & Hdef & Hens)%load_success Hname.
  unfold getStage, js_or. rewrite Hdef.
  change (stages (set_stages d0 resolved)) with resolved.
  rewrite (js_get_not_inherited resolved _ default_not_inherited).
  rewrite (js_get_not_inherited resolved _ Hname).
  set (stage := if truthy_value (resolved !! stageName)
                then resolved !! stageName else resolved !! str "default").
  intros Hget.
  assert (stage = Some cluster) as Hstage.
  { destruct throws; simpl in Hget;
      [destruct (truthy_value stage); simpl in Hget|]; congruence. }
  subst stage.
  destruct (truthy_value (resolved !! stageName));
    by eapply (ensureOfClusters_ok _ _ _ _ Hens).
Qed.

Lemma getStage_after_load_known_witness :
  load 2 (sample_host definition_noauth) sample_instance env_local =
    (instance_after
       (load 2 (sample_host definition_noauth) sample_instance env_local),
     Return tt) ∧
  (str "production" ∉ Object_prototype_names) ∧
  getStage
    (instance_after
       (load 2 (sample_host definition_noauth) sample_instance env_local))
    (str "production") true = Return (Some (vstr "local")) ∧
  ∃ c, c ∈ clusters env_local ∧ VString (name c) = vstr "local".
Proof.
  assert (load 2 (sample_host definition_noauth) sample_instance env_local =
          (instance_after
             (load 2 (sample_host definition_noauth) sample_instance
                env_local),
           Return tt)) as H
    by (vm_compute; reflexivity).
  assert (str "production" ∉ Object_prototype_names) as Hname
    by (refine (bool_decide_unpack _ _); vm_compute; exact I).
  assert (getStage
            (instance_after
               (load 2 (sample_host definition_noauth) sample_instance
                  env_local))
            (str "production") true = Return (Some (vstr "local"))) as Hget
    by (vm_compute; reflexivity).
  split; [exact H|]. split; [exact Hname|]. split; [exact Hget|].
  exact (getStage_after_load_known _ _ _ _ _ _ _ _ H Hname Hget).
Defined.

(** X14: after a successful load, [rawStages] holds the stages as the
    reader gave them, and the resolved stages of the definition have
    exactly the same stage names. *)
Theorem load_success_rawStages depth host this env this' :
  load depth host this env = (this', Return tt) →
  ∃ path d0 d,
    definitionPath (config this) = Some path ∧
    readDefinition host path = inr d0 ∧
    rawStages this' = Some (stages d0) ∧
    definition this' = Some d ∧
    dom (stages d) = dom (stages d0).
Proof.
  intros Hload.
  destruct (load_Return_read _ _ _ _ _ Hload)
    as (path & d0 & Hpath & Htruthy & Hread).
  destruct (load_read_inv _ _ _ _ _ _ _ _ Hpath Htruthy Hread Hload)
    as (_ & Hraw & _ & Hinv).
  destruct (resolveStageAliases depth (stages d0)) as [resolved|] eqn:Hres;
    [|by destruct Hinv].
  destruct Hinv as [Hdef _].
  exists path, d0, (set_stages d0 resolved). repeat (split; [done|]).
  simpl. by eapply resolveStageAliases_dom.
Qed.

Lemma load_success_rawStages_witness :
  load 2 (sample_host definition_noauth) sample_instance env_local =
    (instance_after
            (load 2 (sample_host definition_noauth) sample_instance
               env_local),
          Return tt) ∧
  ∃ path d0 d,
    definitionPath (config sample_instance) = Some path ∧
    readDefinition (sample_host definition_noauth) path = inr d0 ∧
    rawStages
      (instance_after
         (load 2 (sample_host definition_noauth) sample_instance env_local))
      = Some (stages d0) ∧
    definition
      (instance_after
         (load 2 (sample_host definition_noauth) sample_instance env_local))
      = Some d ∧
    dom (stages d) = dom (stages d0).
Proof.
  assert (load 2 (sample_host definition_noauth) sample_instance env_local =
          (instance_after
                  (load 2 (sample_host definition_noauth) sample_instance
                     env_local),
                Return tt)) as H
    by (vm_compute; reflexivity).
  split; [exact H|]. exact (load_success_rawStages _ _ _ _ _ H).
Defined.

(** X15: after a successful load, [getToken] either returns undefined,
    and then [disableAuth] is true, or signs with a string as the key:
    [secrets[0]] is never undefined. *)
Theorem getToken_after_load depth host this env this'
    serviceName stageName :
  load depth host this env = (this', Return tt) →
  (snd (getToken this' serviceName stageName) = None ∧
   ∃ d, definition this' = Some d ∧ disableAuth d = Some true) ∨
  (∃ first,
     snd (getToken this' serviceName stageName) =
     Some (jwt_sign (token_data serviceName stageName) (JString first)
             (str "1h"))).
Proof.
  intros (d & _ & Hdef & Hsec & Hauth)%load_Return_inv.
  unfold getToken. rewrite Hsec.
  destruct (parse_secret (secret d)) as [l|] eqn:Hparse.
  - right. destruct l as [|first l]; [|by exists first].
    unfold parse_secret in Hparse. destruct (secret d) as [s|]; [|done].
    destruct (truthy (Some s)); [|done].
    injection Hparse as Hparse. by apply split_comma_nonempty in Hparse.
  - left. split; [done|]. exists d. auto.
Qed.

Lemma getToken_after_load_witness :
  load 2 (sample_host definition_blank_secret) sample_instance env_local =
    (instance_after
            (load 2 (sample_host definition_blank_secret) sample_instance
               env_local),
          Return tt) ∧
  ((snd (getToken
           (instance_after
              (load 2 (sample_host definition_blank_secret) sample_instance
                 env_local))
           (str "myservice") (str "prod")) = None ∧
    ∃ d, definition
           (instance_after
              (load 2 (sample_host definition_blank_secret) sample_instance
                 env_local)) = Some d ∧
         disableAuth d = Some true) ∨
   (∃ first,
      snd (getToken
             (instance_after
                (load 2 (sample_host definition_blank_secret) sample_instance
                   env_local))
             (str "myservice") (str "prod")) =
      Some (jwt_sign (token_data (str "myservice") (str "prod"))
              (JString first) (str "1h")))).
Proof.
  assert (load 2 (sample_host definition_blank_secret) sample_instance
            env_local =
          (instance_after
                  (load 2 (sample_host definition_blank_secret)
                     sample_instance env_local),
                Return tt)) as H
    by (vm_compute; reflexivity).
  split; [exact H|]. exact (getToken_after_load _ _ _ _ _ _ _ H).
Defined.

(** X16: when a load whose reader gave a definition fails with the
    cluster-not-found error, the error names a stage of the definition
    and the cluster that the stage resolves to, and no cluster of the
    environment has that name. *)
Theorem load_ClusterNotFound depth host this env path d0 this'
    cluster stageName :
  definitionPath (config this) = Some path →
  truthy (Some path) = true →
  readDefinition host path = inr d0 →
  load depth host this env =
    (this', Throw (ClusterNotFound cluster stageName)) →
  ∃ resolved,
    resolveStageAliases depth (stages d0) = Some resolved ∧
    resolved !! stageName = Some cluster ∧
    ∀ c, c ∈ clusters env → VString (name c) ≠ cluster.
Proof.
  intros Hpath Htruthy Hread Hload.
  destruct (load_read_inv _ _ _ _ _ _ _ _ Hpath Htruthy Hread Hload)
    as (_ & _ & _ & Hinv).
  destruct (resolveStageAliases depth (stages d0)) as [resolved|] eqn:Hres;
    [|by destruct Hinv].
  destruct Hinv as (_ & [Hens|[[_ Htypes]|Hsec]]).
  - exists resolved. split; [done|].
    apply check_clusters_Throw in Hens
      as (stageName' & cluster' & [= <- <-] & Hin & Hknown).
    split; [by apply elem_of_map_to_list in Hin|].
    intros c Hc Hname.
    assert (cluster_known env cluster = true) as Hk
      by (apply cluster_known_iff; eauto).
    congruence.
  - apply read_types_Throw in Htypes as (? & ? & ? & _ & _ & _ & ?). done.
  - by destruct Hsec as (_ & ? & _).
Qed.

Lemma load_ClusterNotFound_witness :
  definitionPath (config sample_instance) = Some (str "graphcool.yml") ∧
  truthy (Some (str "graphcool.yml")) = true ∧
  readDefinition (sample_host definition_default) (str "graphcool.yml")
    = inr definition_default ∧
  load 2 (sample_host definition_default) sample_instance env_none =
    (instance_after
            (load 2 (sample_host definition_default) sample_instance env_none),
          Throw (ClusterNotFound (vstr "local") (str "default"))) ∧
  ∃ resolved,
    resolveStageAliases 2 (stages definition_default) = Some resolved ∧
    resolved !! str "default" = Some (vstr "local") ∧
    ∀ c, c ∈ clusters env_none → VString (name c) ≠ vstr "local".
Proof.
  assert (load 2 (sample_host definition_default) sample_instance env_none =
          (instance_after
                  (load 2 (sample_host definition_default) sample_instance
                     env_none),
                Throw (ClusterNotFound (vstr "local") (str "default")))) as H
    by (vm_compute; reflexivity).
  split; [reflexivity|]. split; [reflexivity|]. split; [reflexivity|].
  split; [exact H|].
  exact (load_ClusterNotFound 2 (sample_host definition_default)
           sample_instance env_none (str "graphcool.yml") definition_default
           _ _ _ eq_refl eq_refl eq_refl H).
Defined.

(** X17: when a load whose reader gave a definition fails with the
    missing-secret error, every earlier step passed (stages resolved,
    clusters known, type files read), the secret is absent or empty,
    [disableAuth] is not true, and [secrets] is left null. *)
Theorem load_MissingSecret depth host this env path d0 this' :
  definitionPath (config this) = Some path →
  truthy (Some path) = true →
  readDefinition host path = inr d0 →
  load depth host this env = (this', Throw MissingSecret) →
  (∃ d, reaches_secret_step depth host this env d ∧
        definition this' = Some d) ∧
  truthy (secret d0) = false ∧
  disableAuth d0 ≠ Some true ∧
  secrets this' = None.
Proof.
  intros Hpath Htruthy Hread Hload.
  destruct (load_read_inv _ _ _ _ _ _ _ _ Hpath Htruthy Hread Hload)
    as (_ & _ & _ & Hinv).
  destruct (resolveStageAliases depth (stages d0)) as [resolved|] eqn:Hres;
    [|by destruct Hinv].
  destruct Hinv as (Hdef & [Hens|[[_ Htypes]|Hsec]]).
  - apply check_clusters_Throw in Hens as (? & ? & ? & _). done.
  - apply read_types_Throw in Htypes as (? & ? & ? & _ & _ & _ & ?). done.
  - destruct Hsec as (Hsteps & _ & Hparse & Hauth & Hsecrets).
    split; [by exists (set_stages d0 resolved)|].
    split; [|split; [|done]].
    + unfold parse_secret in Hparse. destruct (secret d0) as [s|]; [|done].
      by destruct (truthy (Some s)).
    + unfold auth_disabled in Hauth. intros Htrue. by rewrite Htrue in Hauth.
Qed.

Lemma load_MissingSecret_witness :
  definitionPath (config sample_instance) = Some (str "graphcool.yml") ∧
  truthy (Some (str "graphcool.yml")) = true ∧
  readDefinition (sample_host definition_default) (str "graphcool.yml")
    = inr definition_default ∧
  load 2 (sample_host definition_default) sample_instance env_local =
    (instance_after
            (load 2 (sample_host definition_default) sample_instance
               env_local),
          Throw MissingSecret) ∧
  (∃ d, reaches_secret_step 2 (sample_host definition_default)
          sample_instance env_local d ∧
        definition
          (instance_after
             (load 2 (sample_host definition_default) sample_instance
                env_local)) = Some d) ∧
  truthy (secret definition_default) = false ∧
  disableAuth definition_default ≠ Some true ∧
  secrets
    (instance_after
       (load 2 (sample_host definition_default) sample_instance env_local))
    = None.
Proof.
  assert (load 2 (sample_host definition_default) sample_instance env_local =
          (instance_after
                  (load 2 (sample_host definition_default) sample_instance
                     env_local),
                Throw MissingSecret)) as H
    by (vm_compute; reflexivity).
  split; [reflexivity|]. split; [reflexivity|]. split; [reflexivity|].
  split; [exact H|].
  exact (load_MissingSecret 2 (sample_host definition_default)
           sample_instance env_local (str "graphcool.yml") definition_default
           _ eq_refl eq_refl eq_refl H).
Defined.

(** * Further properties of the accessors *)

(** X18: the strict and the lenient lookup agree: when
    [getStage(name, true)] returns, it returns a truthy value (a
    non-empty string, or a value inherited from [Object.prototype]), the
    one that [getStage(name, false)] returns; when it throws, it throws
    [StageNotFound(name)] and [getStage(name, false)] returns undefined
    or the empty string.  The lenient lookup never throws. *)
Theorem getStage_strict_lenient this stageName :
  match getStage this stageName true with
  | Return r =>
      truthy_value r = true ∧ getStage this stageName false = Return r
  | Throw e =>
      e = StageNotFound stageName ∧
      ∃ r, getStage this stageName false = Return r ∧ truthy_value r = false
  end.
Proof.
  unfold getStage.
  change (negb true) with false. change (negb false) with true.
  cbv iota.
  destruct (truthy_value _) eqn:Htruthy; [done|].
  split; [done|]. eauto.
Qed.

(** X19: once the stage [default] is bound to a truthy value, [getStage]
    never throws and never returns undefined or the empty string,
    whatever the name: it returns a non-empty string or a value inherited
    from [Object.prototype]. *)
Theorem getStage_with_default this cluster stageName throws :
  get_default this = Some cluster →
  ∃ found, getStage this stageName throws = Return (Some found) ∧
           found ≠ VString [].
Proof.
  unfold get_default, getStage, js_or.
  destruct (definition this) as [d|]; [|done].
  destruct (truthy_value (js_get (stages d) (str "default"))) eqn:Hdefault;
    [|done].
  intros Hcluster.
  destruct (truthy_value (js_get (stages d) stageName)) eqn:Hname.
  - destruct (js_get (stages d) stageName) as [found|]; [|done].
    exists found. rewrite Hname.
    split; [by destruct throws|by apply truthy_value_ne].
  - rewrite Hcluster in Hdefault |- *.
    exists cluster. rewrite Hdefault.
    split; [by destruct throws|by apply truthy_value_ne].
Qed.

Lemma getStage_with_default_witness :
  get_default instance_staging = Some (vstr "clusterA") ∧
  ∃ found,
    getStage instance_staging (str "missing") true = Return (Some found) ∧
    found ≠ VString [].
Proof.
  assert (get_default instance_staging = Some (vstr "clusterA")) as H
    by (vm_compute; reflexivity).
  split; [exact H|]. exact (getStage_with_default _ _ _ _ H).
Defined.
(** * Further properties of token issuance *)

Lemma app_sep_inj (a : N) (l1 l2 r1 r2 : jsstring) :
  a ∉ l1 → a ∉ l2 → l1 ++ a :: r1 = l2 ++ a :: r2 → l1 = l2 ∧ r1 = r2.
Proof.
  revert l2. induction l1 as [|x l1 IH]; intros [|y l2] H1 H2 Heq;
    simpl in Heq.
  - by injection Heq as ->.
  - injection Heq as <- _. exfalso. apply H2, list_elem_of_here.
  - injection Heq as -> _. exfalso. apply H1, list_elem_of_here.
  - injection Heq as -> Heq.
    apply not_elem_of_cons in H1 as [_ H1].
    apply not_elem_of_cons in H2 as [_ H2].
    by destruct (IH l2 H1 H2 Heq) as [-> ->].
Qed.

(** X20: with secrets configured, two calls of [getToken] with service
    names free of [@] return the same token only for the same service
    name and the same stage name. *)
Theorem getToken_injective this serviceName stageName serviceName' stageName' :
  is_Some (secrets this) →
  at_sign ∉ serviceName → at_sign ∉ serviceName' →
  snd (getToken this serviceName stageName) =
    snd (getToken this serviceName' stageName') →
  serviceName = serviceName' ∧ stageName = stageName'.
Proof.
  intros [l Hl] Hs Hs'. unfold getToken, token_data. rewrite Hl. simpl.
  intros [= Heq]. by apply (app_sep_inj at_sign).
Qed.

Lemma getToken_injective_witness :
  is_Some (secrets instance_with_secret) ∧
  (at_sign ∉ str "myservice") ∧
  snd (getToken instance_with_secret (str "myservice") (str "prod")) =
    snd (getToken instance_with_secret (str "myservice") (str "prod")) ∧
  str "myservice" = str "myservice" ∧ str "prod" = str "prod".
Proof.
  assert (is_Some (secrets instance_with_secret)) as Hsec
    by (eexists; reflexivity).
  assert (at_sign ∉ str "myservice") as Hat
    by (intros Hin; apply list_elem_of_In in Hin; vm_compute in Hin;
        repeat (destruct Hin as [Hin|Hin]; [discriminate Hin|]); exact Hin).
  split; [exact Hsec|]. split; [exact Hat|]. split; [reflexivity|].
  exact (getToken_injective _ _ _ _ _ Hsec Hat Hat eq_refl).
Defined.

(** * Further properties of the patch *)

Lemma slice_index_range (len i : Z) : 0 ≤ len → 0 ≤ slice_index len i ≤ len.
Proof. unfold slice_index. destruct (i <? 0) eqn:E; lia. Qed.

(** Whatever the offset, the two slices around it make up the string. *)
Lemma slice_split (s : jsstring) (e : Z) :
  slice s 0 e ++ slice_from s e = s.
Proof.
  unfold slice_from, slice.
  pose proof (slice_index_range (Z.of_nat (length s)) e) as He.
  set (t := slice_index (Z.of_nat (length s)) e) in *.
  assert (slice_index (Z.of_nat (length s)) 0 = 0) as ->
    by (unfold slice_index; simpl; lia).
  assert (slice_index (Z.of_nat (length s)) (Z.of_nat (length s))
          = Z.of_nat (length s)) as ->
    by (unfold slice_index; destruct (_ <? 0) eqn:E; lia).
  rewrite Z.sub_0_r. change (Z.to_nat 0) with 0%nat. rewrite drop_0.
  rewrite (take_ge (drop _ _)) by (rewrite length_drop; lia).
  apply take_drop.
Qed.

(** X21: when the entry has a value node whose span is 4 or more, the
    patch only inserts: the result is the text cut in two with the
    insertion in between, whatever offsets the tree carries. *)
Theorem insertToDefinition_only_inserts
    safeLoad file key insertion obj ms mapping v :
  safeLoad file = Some obj →
  mappings obj = Some ms →
  List.find (λ m, bool_decide (key_value m = key)) ms = Some mapping →
  value mapping = Some v →
  4 ≤ endPosition v - startPosition v →
  ∃ before after,
    file = before ++ after ∧
    insertToDefinition safeLoad file key insertion =
    Return (before ++ insertion ++ after).
Proof.
  intros Hparse Hmap Hfind Hvalue Hspan.
  exists (slice file 0 (mapping_endPosition mapping)),
         (slice_from file (mapping_endPosition mapping)).
  split; [by rewrite slice_split|].
  unfold insertToDefinition. rewrite Hparse, Hmap, Hfind, Hvalue.
  by rewrite (proj2 (Z.ltb_ge _ 4)) by lia.
Qed.

Lemma insertToDefinition_only_inserts_witness :
  yaml_flow_stages text_flow_stages
    = Some {| mappings := Some [mapping_flow_stages] |} ∧
  4 ≤ 14 - 8 ∧
  ∃ before after,
    text_flow_stages = before ++ after ∧
    insertToDefinition yaml_flow_stages text_flow_stages (str "stages")
      insertion_dev =
    Return (before ++ insertion_dev ++ after).
Proof.
  assert (4 ≤ 14 - 8) as Hspan by lia.
  split; [reflexivity|]. split; [exact Hspan|].
  exact (insertToDefinition_only_inserts yaml_flow_stages text_flow_stages
           (str "stages") insertion_dev _ _ mapping_flow_stages _
           eq_refl eq_refl eq_refl eq_refl Hspan).
Defined.

(** X22: [setStage] patches the text only: the definition, the secrets
    and the other fields stay as they are, so [getStage] and [default]
    answer as before the call. *)
Theorem setStage_text_only safeLoad this stageName clusterName this' :
  setStage safeLoad this stageName clusterName = Some (Return this') →
  config this' = config this ∧
  definition this' = definition this ∧
  rawStages this' = rawStages this ∧
  typesString this' = typesString this ∧
  secrets this' = secrets this ∧
  (∀ lookedUp throws,
     getStage this' lookedUp throws = getStage this lookedUp throws) ∧
  get_default this' = get_default this.
Proof.
  unfold setStage. destruct (definitionString this) as [file|]; [|done].
  destruct (insertToDefinition _ _ _ _) as [file'|e]; [|done].
  by intros [= <-].
Qed.

Lemma setStage_text_only_witness :
  setStage yaml_flow_stages instance_text (str "dev") (str "local") =
    Some (Return
            (instance_patched instance_text
               (setStage yaml_flow_stages instance_text (str "dev")
                  (str "local")))) ∧
  config
    (instance_patched instance_text
       (setStage yaml_flow_stages instance_text (str "dev") (str "local")))
    = config instance_text ∧
  definition
    (instance_patched instance_text
       (setStage yaml_flow_stages instance_text (str "dev") (str "local")))
    = definition instance_text ∧
  rawStages
    (instance_patched instance_text
       (setStage yaml_flow_stages instance_text (str "dev") (str "local")))
    = rawStages instance_text ∧
  typesString
    (instance_patched instance_text
       (setStage yaml_flow_stages instance_text (str "dev") (str "local")))
    = typesString instance_text ∧
  secrets
    (instance_patched instance_text
       (setStage yaml_flow_stages instance_text (str "dev") (str "local")))
    = secrets instance_text ∧
  (∀ lookedUp throws,
     getStage
       (instance_patched instance_text
          (setStage yaml_flow_stages instance_text (str "dev") (str "local")))
       lookedUp throws
     = getStage instance_text lookedUp throws) ∧
  get_default
    (instance_patched instance_text
       (setStage yaml_flow_stages instance_text (str "dev") (str "local")))
  = get_default instance_text.
Proof.
  assert (setStage yaml_flow_stages instance_text (str "dev") (str "local") =
          Some (Return
                  (instance_patched instance_text
                     (setStage yaml_flow_stages instance_text (str "dev")
                        (str "local"))))) as H
    by (vm_compute; reflexivity).
  split; [exact H|]. exact (setStage_text_only _ _ _ _ _ H).
Defined.

(** * Further properties across operations *)

(** X23: after resolution an alias and the stage it names are bound to
    the same cluster: when [alias] is bound to [target] and [target] is a
    key with a non-empty value, the resolved mapping binds both to the
    same value. *)
Theorem resolveStageAliases_alias (m m' : Stages) (depth : nat)
    (alias : jsstring) (target : PropertyValue) :
  resolveStageAliases depth m = Some m' →
  m !! alias = Some target →
  truthy_value (m !! property_key target) = true →
  m' !! alias = m' !! property_key target ∧ is_Some (m' !! alias).
Proof.
  intros Hres Halias Htarget.
  rewrite !(resolveStageAliases_lookup _ _ _ _ Hres), Halias.
  apply resolveStageAliases_Some in Hres as [Hall _].
  destruct (m !! property_key target) as [next|] eqn:Hnext; [|done].
  destruct (Hall _ _ Halias) as [v Hv].
  destruct (Hall _ _ Hnext) as [v' Hv'].
  change (resolveStage depth target m = resolveStage depth next m
          ∧ is_Some (resolveStage depth target m)).
  split; [|by rewrite Hv]. rewrite Hv, Hv'. f_equal.
  assert (resolveStage (S depth) target m = Some v) as H1
    by (eapply resolveStage_mono; [done|lia]).
  assert (follows m target next) as Hfollow
    by (split; [by apply js_get_own|by apply truthy_value_ne]).
  rewrite (resolveStage_follow _ _ _ _ Hfollow) in H1. congruence.
Qed.

Lemma resolveStageAliases_alias_witness :
  resolveStageAliases 3 stages_alias = Some stages_alias_resolved ∧
  stages_alias !! str "prod" = Some (vstr "dev") ∧
  truthy_value (stages_alias !! property_key (vstr "dev")) = true ∧
  stages_alias_resolved !! str "prod"
    = stages_alias_resolved !! property_key (vstr "dev") ∧
  is_Some (stages_alias_resolved !! str "prod").
Proof.
  assert (resolveStageAliases 3 stages_alias = Some stages_alias_resolved)
    as H by (vm_compute; reflexivity).
  assert (stages_alias !! str "prod" = Some (vstr "dev")) as Ha
    by (vm_compute; reflexivity).
  assert (truthy_value (stages_alias !! property_key (vstr "dev")) = true)
    as Ht by (vm_compute; reflexivity).
  split; [exact H|]. split; [exact Ha|]. split; [exact Ht|].
  exact (resolveStageAliases_alias _ _ _ _ _ H Ha Ht).
Defined.

(** An instance on which nothing was loaded knows no stage and issues
    no token. *)
Lemma constructor_unloaded cfg stageName serviceName :
  getStage (constructor cfg) stageName false = Return None ∧
  getStage (constructor cfg) stageName true
    = Throw (StageNotFound stageName) ∧
  get_default (constructor cfg) = None ∧
  getToken (constructor cfg) serviceName stageName = ([], None).
Proof. done. Qed.

(** X24: on a text whose mapping has no entry [stages], [setStage]
    appends a newline, the line [stages: ] and the indented line
    [name: clusterName], and leaves the text before them as it is. *)
Theorem setStage_appends safeLoad this file obj ms stageName clusterName :
  definitionString this = Some file →
  safeLoad file = Some obj →
  mappings obj = Some ms →
  List.find (λ m, bool_decide (key_value m = str "stages")) ms = None →
  ∃ this',
    setStage safeLoad this stageName clusterName = Some (Return this') ∧
    definitionString this' =
      Some (file ++ newline ++ str "stages: " ++ newline ++ str "  "
            ++ stageName ++ str ": " ++ clusterName).
Proof.
  intros Hfile Hparse Hmap Hfind. unfold setStage. rewrite Hfile.
  rewrite (insertToDefinition_absent safeLoad file _ _ obj ms Hparse Hmap Hfind).
  eexists. split; [reflexivity|]. reflexivity.
Qed.

Lemma setStage_appends_witness :
  definitionString instance_secret_text = Some text_secret_only ∧
  ∃ this',
    setStage yaml_secret_only instance_secret_text (str "dev") (str "local")
      = Some (Return this') ∧
    definitionString this' =
      Some (text_secret_only ++ newline ++ str "stages: " ++ newline
            ++ str "  " ++ str "dev" ++ str ": " ++ str "local").
Proof.
  split; [reflexivity|].
  exact (setStage_appends yaml_secret_only instance_secret_text
           text_secret_only _ _ (str "dev") (str "local")
           eq_refl eq_refl eq_refl eq_refl).
Defined.
